(** * supercop.ts: benchmark-log reduction and LaTeX table rendering

    A shallow embedding of [src/tex/supercop.ts].  The script reads one
    [data] file per allow-listed host directory, parses every log line with
    the regular expression [DB_REG_OK], keeps the fastest record per
    implementation, and prints a LaTeX table with one block per configured
    Section.

    Modelling conventions.
    - JavaScript strings are [string]; every character the script inspects
      is ASCII.
    - JavaScript numbers are IEEE-754 binary64 values, taken from the
      standard library's executable specification [SpecFloat] at
      precision 53 and maximal exponent 1024.  A missing property read as
      a number ([undefined] in arithmetic) is [NaN], as ToNumber gives.
    - Plain objects used as dictionaries are finite maps ([gmap]) over
      their own enumerable keys.  lodash's [set] leaves the object
      untouched at the keys [__proto__], [constructor] and [prototype];
      the model has this guard ([reserved]).  Otherwise the model
      describes the script on ordinary property names, as all identifiers
      of its tables and of SUPERCOP logs are: a name that every object
      inherits from [Object.prototype] ([inherited]) is seen by the [in]
      operator and read as a function, and a key made of digits makes
      lodash create an array instead of a plain object.  The statements
      that depend on this say so in their hypotheses ([has_property],
      [plain_key], [plain_records], [plain_tables]).
    - Exceptions are values of [exn] carried by the [result] monad; the
      text written by [console.log] is the list of logged strings.
    - What ECMA-262 leaves to the engine (the approximation computed by
      [Math.pow], the digits of [Number::toString] from 1e21 upwards) is
      a parameter, the record [Engine]. *)

From Stdlib Require Import ZArith NArith Ascii String List Bool Lia.
From Stdlib Require Import Floats.SpecFloat.
From Stdlib Require Import DecimalString.
From stdpp Require Import base option list gmap strings.

Local Open Scope Z_scope.

(** ** Exceptions *)

Inductive exn : Type :=
| Error (msg : string)        (* [throw new Error(msg)] *)
| TypeError (what : string)   (* property access on [undefined] *)
| FsError (path : string).    (* [readdirSync] / [readFileSync] failing *)

Inductive result (A : Type) : Type :=
| Ok (a : A)
| Throw (e : exn).
Arguments Ok {A} a.
Arguments Throw {A} e.

Definition rbind {A B} (r : result A) (k : A -> result B) : result B :=
  match r with
  | Ok a => k a
  | Throw e => Throw e
  end.

Notation "x <-- r ;; k" := (rbind r (fun x => k))
  (at level 100, r at next level, right associativity).

(** [xs.map(f)] for a callback that may throw: elements are visited from
    left to right and the first exception aborts the traversal. *)
Fixpoint mapR {A B} (f : A -> result B) (l : list A) : result (list B) :=
  match l with
  | [] => Ok []
  | a :: l' => b <-- f a ;; bs <-- mapR f l' ;; Ok (b :: bs)
  end.

(** ** Strings *)

Module Str.

Definition nl : string := String (ascii_of_nat 10) EmptyString.
Definition space : ascii := ascii_of_nat 32.

Fixpoint repeat_char (c : ascii) (n : nat) : string :=
  match n with
  | O => EmptyString
  | S n' => String c (repeat_char c n')
  end.

(** [s.padStart(n)] and [s.padEnd(n)] with the default filler, a space. *)
Definition padStart (n : nat) (s : string) : string :=
  repeat_char space (n - String.length s) +:+ s.

Definition padEnd (n : nat) (s : string) : string :=
  s +:+ repeat_char space (n - String.length s).

(** [l.join(sep)] *)
Definition join (sep : string) (l : list string) : string :=
  String.concat sep l.

(** [s.split(c)] for a one-character separator: never the empty list. *)
Fixpoint split (c : ascii) (s : string) : list string :=
  match s with
  | EmptyString => [EmptyString]
  | String a s' =>
      if Ascii.eqb a c then EmptyString :: split c s'
      else match split c s' with
           | l :: ls => String a l :: ls
           | [] => [String a EmptyString]
           end
  end.

(** [s.includes(needle)] *)
Fixpoint includes (needle s : string) : bool :=
  String.prefix needle s ||
  match s with
  | EmptyString => false
  | String _ s' => includes needle s'
  end.

(** Decimal digits of a natural number, as template literals print it. *)
Definition of_N (n : N) : string := NilZero.string_of_uint (N.to_uint n).
Definition of_nat (n : nat) : string := of_N (N.of_nat n).

End Str.

(** ** Numbers *)

Module Num.

Abbreviation number := spec_float.

Definition prec : Z := 53.
Definition emax : Z := 1024.

Definition NaN : number := S754_nan.
Definition Infinity : number := S754_infinity false.

(** The Number value for a mathematical integer: round to nearest, ties to
    even, overflowing to an infinity. *)
Definition of_Z (z : Z) : number := binary_normalize prec emax z 0 false.
Definition of_N (n : N) : number := of_Z (Z.of_N n).
Definition of_nat (n : nat) : number := of_Z (Z.of_nat n).

Definition mul : number -> number -> number := SFmul prec emax.
Definition div : number -> number -> number := SFdiv prec emax.
Definition sqrt : number -> number := SFsqrt prec emax.

(** [x == y], [x < y] and [x <= y] on numbers *)
Definition eqb : number -> number -> bool := SFeqb.
Definition ltb : number -> number -> bool := SFltb.
Definition leb : number -> number -> bool := SFleb.

Definition is_nan (x : number) : bool :=
  match x with S754_nan => true | _ => false end.

Definition is_zero (x : number) : bool :=
  match x with S754_zero _ => true | _ => false end.

(** *** [Number(s)] on a string of decimal digits *)

Definition digit_of (c : ascii) : option N :=
  let n := N_of_ascii c in
  if ((48 <=? n) && (n <=? 57))%N then Some (n - 48)%N else None.

Fixpoint digits_value (acc : N) (s : string) : option N :=
  match s with
  | EmptyString => Some acc
  | String c s' =>
      match digit_of c with
      | Some d => digits_value (10 * acc + d)%N s'
      | None => None
      end
  end.

(** The script applies [Number] to the [cycles] group only, which matches
    [\d+]; on such a string the result is the rounded decimal value.  A
    string with any other character is mapped to [NaN], the empty string
    to [+0]. *)
Definition Number (s : string) : number :=
  match digits_value 0%N s with
  | Some n => of_N n
  | None => NaN
  end.

(** *** [Math.min(...l)] (ECMA-262, Math.min) *)

Fixpoint Math_min_from (lowest : number) (l : list number) : number :=
  match l with
  | [] => lowest
  | x :: l' =>
      match x with
      | S754_nan => NaN
      | _ =>
          match x, lowest with
          | S754_zero true, S754_zero false => Math_min_from x l'
          | _, _ =>
              if ltb x lowest then Math_min_from x l'
              else Math_min_from lowest l'
          end
      end
  end.

Definition Math_min (l : list number) : number := Math_min_from Infinity l.

(** *** What the engine decides *)

Record Engine : Type := {
  (* Number::exponentiate past its first three steps: for an exponent
     that is neither NaN nor zero and a base that is not NaN; for finite
     operands ECMA-262 asks for an "implementation-approximated" value *)
  pow_approx : number -> number -> number;
  (* Number::toString for a finite value of magnitude at least 1e21 *)
  toString_exp : number -> string
}.

(** [Math.pow(base, exponent)]: the first three steps of
    Number::exponentiate are exact, the rest is the engine's. *)
Definition Math_pow (eng : Engine) (base exponent : number) : number :=
  if is_nan exponent then NaN
  else if is_zero exponent then of_Z 1
  else if is_nan base then NaN
  else pow_approx eng base exponent.

(** *** [x.toFixed(f)] (ECMA-262, Number.prototype.toFixed) *)

(** The integer [n] for which [n / 10^f] is closest to [m * 2^e]; of two
    such integers the larger. *)
Definition round_scaled (f : nat) (m : positive) (e : Z) : Z :=
  let num := Z.pos m * 10 ^ Z.of_nat f in
  if 0 <=? e then num * 2 ^ e
  else let den := 2 ^ (- e) in (2 * num + den) / (2 * den).

Definition fixed_digits (f : nat) (n : Z) : string :=
  let m := Str.of_N (Z.to_N n) in
  match f with
  | O => m
  | _ =>
      let m := Str.repeat_char "0" (S f - String.length m) +:+ m in
      let k := String.length m in
      String.substring 0 (k - f) m +:+ "." +:+ String.substring (k - f) f m
  end.

Definition ge_1e21 (m : positive) (e : Z) : bool :=
  if 0 <=? e then 10 ^ 21 <=? Z.pos m * 2 ^ e
  else 10 ^ 21 * 2 ^ (- e) <=? Z.pos m.

Definition toFixed (eng : Engine) (f : nat) (x : number) : string :=
  match x with
  | S754_nan => "NaN"
  | S754_infinity false => "Infinity"
  | S754_infinity true => "-Infinity"
  | S754_zero _ => fixed_digits f 0
  | S754_finite s m e =>
      (if s then "-" else "") +:+
      (if ge_1e21 m e then toString_exp eng (S754_finite false m e)
       else fixed_digits f (round_scaled f m e))
  end.

End Num.

Import Num.

(** ** Regular expressions

    The fragment of JavaScript regular expressions that [DB_REG_OK] is
    written in: literals, character classes, greedy [+] on a class, a
    greedy optional group, alternation and named groups.  Unnamed groups
    leave nothing in [.groups] and are not recorded. *)

Module Regex.

Inductive regex : Type :=
| Lit (l : string)                   (* a literal string *)
| Plus (p : ascii -> bool)           (* [C+] for a character class [C] *)
| Seq (r1 r2 : regex)                (* [r1 r2] *)
| Alt (r1 r2 : regex)                (* [r1|r2] *)
| Opt (r : regex)                    (* [(r)?] *)
| Group (name : string) (r : regex). (* [(?<name>r)] *)

(** Character classes *)
Definition in_range (lo hi : N) (c : ascii) : bool :=
  ((lo <=? N_of_ascii c) && (N_of_ascii c <=? hi))%N.

Definition is_char (x : ascii) (c : ascii) : bool := Ascii.eqb c x.

(* [\d] *)
Definition digit (c : ascii) : bool := in_range 48 57 c.
(* [\w] *)
Definition word (c : ascii) : bool :=
  in_range 48 57 c || in_range 65 90 c || in_range 97 122 c || is_char "_" c.
(* [[\w\/]] and [[/\w]] *)
Definition word_slash (c : ascii) : bool := word c || is_char "/" c.
(* [[-\w\/]] *)
Definition dash_word_slash (c : ascii) : bool :=
  is_char "-" c || word c || is_char "/" c.
(* [[-=\w\/]] *)
Definition dash_eq_word_slash (c : ascii) : bool :=
  is_char "-" c || is_char "=" c || word c || is_char "/" c.

Fixpoint all_in (p : ascii -> bool) (s : string) : bool :=
  match s with
  | EmptyString => true
  | String a s' => p a && all_in p s'
  end.

(** [.groups] of a match *)
Abbreviation groups := (gmap string string).

(** *** The backtracking matcher

    [matcher r s g k] runs [r] at the front of [s] with the groups [g]
    captured so far and hands the rest of the input to the continuation
    [k]; when [k] fails the matcher backtracks into [r].  Choices are
    tried in the order of ECMA-262: a greedy quantifier takes the longest
    repetition first, an alternation its left branch first. *)

Fixpoint strip_prefix (l s : string) : option string :=
  match l, s with
  | EmptyString, _ => Some s
  | String a l', String b s' => if Ascii.eqb a b then strip_prefix l' s' else None
  | String _ _, EmptyString => None
  end.

Fixpoint plus_loop {A} (p : ascii -> bool) (s : string)
    (k : string -> option A) : option A :=
  match s with
  | EmptyString => None
  | String a s' =>
      if p a then
        match plus_loop p s' k with
        | Some x => Some x
        | None => k s'
        end
      else None
  end.

Fixpoint matcher {A} (r : regex) (s : string) (g : groups)
    (k : string -> groups -> option A) : option A :=
  match r with
  | Lit l =>
      match strip_prefix l s with
      | Some s' => k s' g
      | None => None
      end
  | Plus p => plus_loop p s (fun s' => k s' g)
  | Seq r1 r2 => matcher r1 s g (fun s' g' => matcher r2 s' g' k)
  | Alt r1 r2 =>
      match matcher r1 s g k with
      | Some x => Some x
      | None => matcher r2 s g k
      end
  | Opt r1 =>
      match matcher r1 s g k with
      | Some x => Some x
      | None => k s g
      end
  | Group name r1 =>
      matcher r1 s g (fun s' g' =>
        k s' (<[name := String.substring 0 (String.length s - String.length s') s]> g'))
  end.

(** [r.exec(s)?.groups] for a regular expression without flags: the match
    is attempted at index 0, then 1, and so on; the first index at which
    the matcher succeeds wins. *)
Fixpoint exec (r : regex) (s : string) : option groups :=
  match matcher r s ∅ (fun _ g => Some g) with
  | Some g => Some g
  | None =>
      match s with
      | EmptyString => None
      | String _ s' => exec r s'
      end
  end.

(** *** What a regular expression denotes

    [sem r s g g']: [r] matches exactly the string [s] and extends the
    groups [g] to [g']. *)
Inductive sem : regex -> string -> groups -> groups -> Prop :=
| sem_Lit l g : sem (Lit l) l g g
| sem_Plus p s g :
    s <> EmptyString -> all_in p s = true -> sem (Plus p) s g g
| sem_Seq r1 r2 s1 s2 g g' g'' :
    sem r1 s1 g g' -> sem r2 s2 g' g'' -> sem (Seq r1 r2) (s1 +:+ s2) g g''
| sem_Alt_l r1 r2 s g g' : sem r1 s g g' -> sem (Alt r1 r2) s g g'
| sem_Alt_r r1 r2 s g g' : sem r2 s g g' -> sem (Alt r1 r2) s g g'
| sem_Opt_skip r g : sem (Opt r) EmptyString g g
| sem_Opt_take r s g g' : sem r s g g' -> sem (Opt r) s g g'
| sem_Group name r s g g' :
    sem r s g g' -> sem (Group name r) s g (<[name := s]> g').

(** [r] matches somewhere inside [line]. *)
Definition matches_in (r : regex) (line : string) (g : groups) : Prop :=
  exists pre mid post, line = pre +:+ mid +:+ post /\ sem r mid ∅ g.

Fixpoint seq (rs : list regex) : regex :=
  match rs with
  | [] => Lit EmptyString
  | [r] => r
  | r :: rs' => Seq r (seq rs')
  end.

End Regex.

Import Regex.

(** ** The log-line pattern *)

(**
[[
/(?<supercopversion>\d+) (?<host>\w+) (?<abi>\w+) (?<date>\d+) (?<primitive>\w+) (?<timecop>[\w\/]+) try(\(\w+placeasm:\w+\))? (?<checksum>[\w\/]+) (ok|unknown) (?<cycles>\d+) (?<chksmcycles>\d+) (?<cyclespersecond>\d+) (?<impl>[-\w\/]+) (?<cc>[/\w]+)_(?<cflags>[-=\w\/]+)/
]]
*)
Definition DB_REG_OK : regex :=
  seq [ Group "supercopversion" (Plus digit); Lit " ";
        Group "host" (Plus word); Lit " ";
        Group "abi" (Plus word); Lit " ";
        Group "date" (Plus digit); Lit " ";
        Group "primitive" (Plus word); Lit " ";
        Group "timecop" (Plus word_slash); Lit " try";
        Opt (seq [Lit "("; Plus word; Lit "placeasm:"; Plus word; Lit ")"]);
        Lit " ";
        Group "checksum" (Plus word_slash); Lit " ";
        Alt (Lit "ok") (Lit "unknown"); Lit " ";
        Group "cycles" (Plus digit); Lit " ";
        Group "chksmcycles" (Plus digit); Lit " ";
        Group "cyclespersecond" (Plus digit); Lit " ";
        Group "impl" (Plus dash_word_slash); Lit " ";
        Group "cc" (Plus word_slash); Lit "_";
        Group "cflags" (Plus dash_eq_word_slash) ].

(** ** The log-line grammar, field by field

    A second reading of the pattern, as the list of fields a benchmark
    line is made of; [DB_REG_OK] is compared with it below. *)

Record log_line : Type := {
  l_supercopversion : string;           (* digits *)
  l_host : string;                      (* word characters *)
  l_abi : string;                       (* word characters *)
  l_date : string;                      (* digits *)
  l_primitive : string;                 (* word characters *)
  l_timecop : string;                   (* word characters and "/" *)
  l_placeasm : option (string * string);(* the optional "(...placeasm:...)" *)
  l_checksum : string;                  (* word characters and "/" *)
  l_status : string;                    (* the status token *)
  l_cycles : string;                    (* digits *)
  l_chksmcycles : string;               (* digits *)
  l_cyclespersecond : string;           (* digits *)
  l_impl : string;                      (* word characters, "/" and "-" *)
  l_cc : string;                        (* word characters and "/" *)
  l_cflags : string                     (* word characters, "/", "-" and "=" *)
}.

(* a non-empty string of characters of the class [p] *)
Definition token (p : ascii -> bool) (s : string) : Prop :=
  s <> EmptyString /\ all_in p s = true.

Definition well_formed (l : log_line) : Prop :=
  token digit (l_supercopversion l) /\ token word (l_host l) /\
  token word (l_abi l) /\ token digit (l_date l) /\
  token word (l_primitive l) /\ token word_slash (l_timecop l) /\
  match l_placeasm l with
  | Some (a, b) => token word a /\ token word b
  | None => True
  end /\
  token word_slash (l_checksum l) /\
  (l_status l = "ok" \/ l_status l = "unknown") /\
  token digit (l_cycles l) /\ token digit (l_chksmcycles l) /\
  token digit (l_cyclespersecond l) /\ token dash_word_slash (l_impl l) /\
  token word_slash (l_cc l) /\ token dash_eq_word_slash (l_cflags l).

Definition text_of (l : log_line) : string :=
  l_supercopversion l +:+ " " +:+ l_host l +:+ " " +:+ l_abi l +:+ " " +:+
  l_date l +:+ " " +:+ l_primitive l +:+ " " +:+ l_timecop l +:+ " try" +:+
  match l_placeasm l with
  | Some (a, b) => "(" +:+ a +:+ "placeasm:" +:+ b +:+ ")"
  | None => EmptyString
  end +:+
  " " +:+ l_checksum l +:+ " " +:+ l_status l +:+ " " +:+ l_cycles l +:+ " " +:+
  l_chksmcycles l +:+ " " +:+ l_cyclespersecond l +:+ " " +:+ l_impl l +:+ " " +:+
  l_cc l +:+ "_" +:+ l_cflags l.

(* the named groups of a match of such a line *)
Definition groups_of (l : log_line) : groups :=
  <["cflags" := l_cflags l]> (<["cc" := l_cc l]> (<["impl" := l_impl l]> (
  <["cyclespersecond" := l_cyclespersecond l]> (
  <["chksmcycles" := l_chksmcycles l]> (<["cycles" := l_cycles l]> (
  <["checksum" := l_checksum l]> (<["timecop" := l_timecop l]> (
  <["primitive" := l_primitive l]> (<["date" := l_date l]> (
  <["abi" := l_abi l]> (<["host" := l_host l]> (
  <["supercopversion" := l_supercopversion l]> ∅)))))))))))).

(** A line holds a benchmark record when a well-formed record occurs
    somewhere in it. *)
Definition holds_record (line : string) (l : log_line) : Prop :=
  well_formed l /\ exists pre post, line = pre +:+ text_of l +:+ post.

(** ** Static configuration *)

(* an entry of [implMap] *)
Record impl_info : Type := { name : string; field : string }.

(** The lookup tables and orderings the script keeps as module-level
    constants.  Functions take them as one value, so that statements
    about other configurations (a Section naming an unknown
    implementation, say) can be made; [supercop_config] below is the
    configuration of the source file. *)
Record Config : Type := {
  CAPTION_MAP : gmap string string;      (* curve -> heading *)
  implOrder : list (list string);        (* the Sections *)
  implMap : gmap string impl_info;
  machineOrder : list string;
  machinenameMap : gmap string string;
  languageMap : gmap string string
}.

(* padding constants to have beautified latex *)
Definition PAD_CYC : nat := 18.
Definition PAD_NAME : nat := 35.
Definition PAD_FIELD : nat := 8.
Definition FACTOR : Z := 1000.
Definition ROW_DESCRIPTION : string := Str.padEnd PAD_NAME "Implementation".
Definition FIELD_DESCRIPTION : string := Str.padStart PAD_FIELD "Lang.".
Definition MEAN_DESCRIPTION : string := Str.padStart PAD_CYC "G.M.".

Definition NOTE : string :=
  Str.join Str.nl
    [ "";
      "Note:";
      "G.M. stands for geometric mean;";
      "ots stands for off-the-shelf;";
      "asm means assembly;";
      "-v indicates the use of vector instructions;";
      "bin means precompiled.";
      "";
      "\cite{hacl} uses parallelized field arithmetic; ";
      "All libsecp256k1 implementations are unsaturated" ].

Definition CAPTION : string :=
  "Cost of scalar multiplication (in cycles) of different implementations benchmarking on different machines.".
Definition LABEL : string := "fulltable2".

Definition table_start (cap label : string) : string :=
  Str.join Str.nl
    [ "\begin{sidewaystable}[h]";
      "\vspace{20em}";
      "\centering";
      "";
      "\caption{" +:+ cap +:+ "}";
      "\label{f:" +:+ label +:+ "}";
      "\tiny" ].

Definition TABLE_END : string :=
  NOTE +:+ Str.nl +:+ "\end{sidewaystable}" +:+ Str.nl.

Definition supercop_CAPTION_MAP : gmap string string :=
  list_to_map
    [ ("curve25519", "Curve25519");
      ("p256", "P-256");
      ("p384", "P-384");
      ("secp256k1", "secp256k1") ].

Definition supercop_implOrder : list (list string) :=
  [ [ "crypto_scalarmult/curve25519/sandy2x";
      "crypto_scalarmult/curve25519/amd64-64";
      "crypto_scalarmult/curve25519/amd64-51";
      "crypto_scalarmult/curve25519/donna";
      "crypto_scalarmult/curve25519/donna_c64";
      "crypto_scalarmult/curve25519/openssl-c-ots";
      "crypto_scalarmult/curve25519/openssl-ots";
      "crypto_scalarmult/curve25519/openssl-fe64-ots";
      "crypto_scalarmult/curve25519/openssl-fe51-cryptopt";
      "crypto_scalarmult/curve25519/openssl-fe64-cryptopt";
      "crypto_scalarmult/curve25519/openssl-fe64-fiat";
      "crypto_scalarmult/curve25519/everest-hacl-51";
      "crypto_scalarmult/curve25519/everest-hacl-64";
      "crypto_scalarmult/curve25519/everest-hacl-lib-51";
      "crypto_scalarmult/curve25519/everest-hacl-lib-64";
      "crypto_scalarmult/curve25519/openssl-fe64-w-armdazh" ];
    [ "crypto_scalarmult/secp256k1/libsecp256k1-ots";
      "crypto_scalarmult/secp256k1/libsecp256k1-c-ots";
      "crypto_scalarmult/secp256k1/libsecp256k1-ots-c-dettman";
      "crypto_scalarmult/secp256k1/libsecp256k1-ots-cryptopt-dettman";
      "crypto_scalarmult/secp256k1/libsecp256k1-ots-cryptopt-bcc" ] ].

Definition supercop_implMap : gmap string impl_info :=
  list_to_map
    [ (* CURVE25519 *)
      ("crypto_scalarmult/curve25519/sandy2x",
       {| name := "sandy2x~\cite{sandy2x}"; field := "av" |});
      ("crypto_scalarmult/curve25519/amd64-51",
       {| name := "amd64-51~\cite{Chen14}"; field := "a64" |});
      ("crypto_scalarmult/curve25519/amd64-64",
       {| name := "amd64-64~\cite{Chen14}"; field := "a64" |});
      ("crypto_scalarmult/curve25519/donna",
       {| name := "donna~\cite{curve25519-donna}"; field := "av" |});
      ("crypto_scalarmult/curve25519/donna_c64",
       {| name := "donna-c64~\cite{curve25519-donna}"; field := "c51" |});
      ("crypto_scalarmult/curve25519/openssl-c-ots",
       {| name := "(1) OSSL ots~\cite{openssl}"; field := "c51" |});
      ("crypto_scalarmult/curve25519/openssl-ots",
       {| name := "(2) OSSL fe-51 ots~\cite{openssl}"; field := "a51" |});
      ("crypto_scalarmult/curve25519/openssl-fe64-ots",
       {| name := "(3) OSSL fe-64 ots~\cite{openssl}"; field := "a64" |});
      ("crypto_scalarmult/curve25519/openssl-fe51-cryptopt",
       {| name := "(4) OSSL fe-51+\textbf\cryptopt"; field := "a51" |});
      ("crypto_scalarmult/curve25519/openssl-fe64-cryptopt",
       {| name := "(5) OSSL fe-64+\textbf\cryptopt (mul only)"; field := "a64" |});
      ("crypto_scalarmult/curve25519/openssl-fe64-fiat",
       {| name := "(6) OSSL fe-64+Fiat-C"; field := "c64" |});
      ("crypto_scalarmult/curve25519/openssl-fe64-cryptopt-eql",
       {| name := "OSSL 64+\textbf\cryptopt(mul as sq)"; field := "a64" |});
      ("crypto_scalarmult/curve25519/openssl-fe64-fiat-eql",
       {| name := "OSSL 64+Fiat-C (mul as sq)"; field := "c64" |});
      ("crypto_scalarmult/curve25519/everest-hacl-51",
       {| name := "(7) HACL*~fe-51~\cite{hacl}"; field := "c51" |});
      ("crypto_scalarmult/curve25519/everest-hacl-64",
       {| name := "(8) HACL*~fe-64~\cite{hacl}"; field := "a64" |});
      ("crypto_scalarmult/curve25519/everest-hacl-lib-51",
       {| name := "(9) HACL*~fe-51~\cite{hacl}"; field := "bin" |});
      ("crypto_scalarmult/curve25519/everest-hacl-lib-64",
       {| name := "(10) HACL*~fe-64~\cite{hacl}"; field := "bin" |});
      ("crypto_scalarmult/curve25519/openssl-fe64-w-armdazh",
       {| name := "(11) OSSL fe-64 + (RFC7748~\cite{oliveira_sac2017})";
          field := "a64" |});
      (* SECP256k1 *)
      ("crypto_scalarmult/secp256k1/openssl-ots",
       {| name := "OSSL ots"; field := "c port" |});
      ("crypto_scalarmult/secp256k1/openssl-cryptopt",
       {| name := "OSSL+\textbf\cryptopt"; field := "sa" |});
      ("crypto_scalarmult/secp256k1/libsecp256k1-ots",
       {| name := "libsecp256k1~\cite{libsecp256k1}"; field := "sa" |});
      ("crypto_scalarmult/secp256k1/libsecp256k1-c-ots",
       {| name := "libsecp256k1~\cite{libsecp256k1}"; field := "c52" |});
      ("crypto_scalarmult/secp256k1/libsecp256k1-ots-c-dettman",
       {| name := "libsecp256k1+Dettman (mul only)"; field := "c52" |});
      ("crypto_scalarmult/secp256k1/libsecp256k1-ots-cryptopt-dettman",
       {| name := "libsecp256k1+\textbf\cryptopt (Dettman) (mul only)";
          field := "sa" |});
      ("crypto_scalarmult/secp256k1/libsecp256k1-ots-cryptopt-bcc",
       {| name := "libsecp256k1+\textbf\cryptopt (CS2)"; field := "sa" |}) ].

Definition supercop_machineOrder : list string :=
  [ "kivsa"; "nakhash"; "aljamus"; "nuc"; "akrav"; "akavish"; "pil"; "arnevet" ].

Definition supercop_machinenameMap : gmap string string :=
  list_to_map
    [ ("kivsa", "1900X");
      ("nakhash", "5800X");
      ("aljamus", "5950X");
      ("nuc", "i7 6G");
      ("akrav", "i7 10G");
      ("akavish", "i9 10G");
      ("pil", "i7 11G");
      ("arnevet", "i9 12G") ].

Definition supercop_languageMap : gmap string string :=
  list_to_map
    [ ("c port", "C");
      ("c", "C");
      ("c64", "C");
      ("c52", "C");
      ("c51", "C");
      ("av", "asm-v");
      ("a64", "asm");
      ("a51", "asm");
      ("sa", "asm") ].

Definition supercop_config : Config :=
  {| CAPTION_MAP := supercop_CAPTION_MAP;
     implOrder := supercop_implOrder;
     implMap := supercop_implMap;
     machineOrder := supercop_machineOrder;
     machinenameMap := supercop_machinenameMap;
     languageMap := supercop_languageMap |}.

(** ** Observations and the Aggregate Matrix *)

(* what the loader keeps of a matched line *)
Record observation : Type := { impl : string; cycles : number; machine : string }.

(* [acc]: implementation -> machine -> cycles *)
Abbreviation matrix := (gmap string (gmap string number)).

(** [g.name] for a group of a successful match *)
Definition group_of (g : groups) (key : string) : string :=
  default EmptyString (g !! key).

(** The object literal of the last [.map] of the loader: the host of an
    observation is the [host] group of its line. *)
Definition observe (g : groups) : observation :=
  {| impl := group_of g "impl";
     cycles := Number (group_of g "cycles");
     machine := group_of g "host" |}.

(** The [datafile] chain: split into lines, drop the lines that contain
    "objsize", match the rest against [DB_REG_OK], drop the lines without
    a match, keep the three fields. *)
Definition datafile (text : string) : list observation :=
  map observe
    (omap (exec DB_REG_OK)
       (List.filter (fun line => negb (Str.includes "objsize" line))
          (Str.split (ascii_of_nat 10) text))).

(** lodash [groupBy(datafile, "impl")]: each element is pushed on the
    array of its key, a new key is added behind the existing ones.
    (JavaScript enumerates integer-like keys first; the groups write
    disjoint entries of the accumulator, so their order is immaterial.) *)
Fixpoint group_push (o : observation) (gs : list (string * list observation))
    : list (string * list observation) :=
  match gs with
  | [] => [(impl o, [o])]
  | (k, vs) :: gs' =>
      if String.eqb k (impl o) then (k, vs ++ [o]) :: gs'
      else (k, vs) :: group_push o gs'
  end.

Definition groupBy_impl (l : list observation) : list (string * list observation) :=
  fold_left (fun gs o => group_push o gs) l [].

(** lodash [minBy(values, "cycles")]: the first element whose [cycles] is
    strictly below all earlier ones; an initial NaN is passed over;
    [undefined] for an empty array. *)
Definition minBy_step (best : option observation) (o : observation) : option observation :=
  match best with
  | None => if is_nan (cycles o) then None else Some o
  | Some b => if Num.ltb (cycles o) (cycles b) then Some o else Some b
  end.

Definition minBy_cycles (values : list observation) : option observation :=
  fold_left minBy_step values None.

(** The path [`${impl}.${machine}`] handed to [set]. *)
Definition path_of (i m : string) : string := i +:+ "." +:+ m.

(** The keys at which lodash's [baseSet] stops and returns the object as
    it is. *)
Definition reserved (k : string) : bool :=
  String.eqb k "__proto__" || String.eqb k "constructor" || String.eqb k "prototype".

(** lodash [set(acc, `${impl}.${machine}`, cycles)]: neither segment can
    hold a dot or a bracket, so the path has exactly two keys, [i] and
    [m].  [baseSet] walks the path: at a reserved key it returns at once;
    at [i] it keeps the row that is there or puts an empty object; at [m]
    it writes the value.  (For a host made of digits the new row is an
    array, and for an implementation named like a member of
    [Object.prototype] the row is that member: see [plain_key].) *)
Definition set (acc : matrix) (i m : string) (v : number) : matrix :=
  if reserved i then acc
  else if reserved m then <[i := default ∅ (acc !! i)]> acc
  else <[i := <[m := v]> (default ∅ (acc !! i))]> acc.

Fixpoint foldR {A B} (f : B -> A -> result B) (l : list A) (b : B) : result B :=
  match l with
  | [] => Ok b
  | a :: l' => b' <-- f b a ;; foldR f l' b'
  end.

(** The body of the [forEach] over the groups of one file. *)
Definition add_group (acc : matrix) (kv : string * list observation) : result matrix :=
  match minBy_cycles kv.2 with
  | Some o => Ok (set acc kv.1 (machine o) (cycles o))
  | None => Throw (TypeError "minBy(values, cycles) is undefined")
  end.

(** A directory listing: the names [readdirSync(dir)] returns, each with
    the text of [name/data], or [None] where reading it throws. *)
Abbreviation listing := (list (string * option string)).

Definition readFileSync (e : string * option string) : result string :=
  match e.2 with
  | Some text => Ok text
  | None => Throw (FsError (e.1 +:+ "/data"))
  end.

Definition add_host (acc : matrix) (e : string * option string) : result matrix :=
  text <-- readFileSync e ;;
  foldR add_group (groupBy_impl (datafile text)) acc.

Definition allowed (cfg : Config) (e : string * option string) : bool :=
  bool_decide (e.1 ∈ machineOrder cfg).

(** [data]: the reduce over the allow-listed entries of the root. *)
Definition data (cfg : Config) (dir : listing) : result matrix :=
  foldR add_host (List.filter (allowed cfg) dir) ∅.

(** ** Rendering *)

(* an element of [d] *)
Record row : Type := {
  row_field : string;               (* [field] *)
  row_name : string;                (* [name] *)
  iname : string;
  byMachine : gmap string number
}.

(** [o[k]] read as a number: a missing key reads [undefined], which every
    numeric use below turns into NaN. *)
Definition num_at (o : gmap string number) (k : string) : number :=
  default NaN (o !! k).

Section Render.

Variable eng : Engine.
Variable cfg : Config.

(** The two [in] tests are tests for an own key: the model covers names
    that are not inherited from [Object.prototype] (see [plain_tables]). *)
Definition fieldToStr (implName : string) : string :=
  match implMap cfg !! implName with
  | None => "-" +:+ implName
  | Some info =>
      match languageMap cfg !! field info with
      | Some l => l
      | None => field info
      end
  end.

(** The callback of the [.map] that builds [d], before the filter.  Past
    the [in] test the entry exists, so the [??] fallback of [name] is
    never taken.  The [in] test is a test for an own key: for an
    identifier that [implMap] inherits from [Object.prototype] the script
    does not throw, and the model does not cover it (see [has_property]
    and [plain_tables]). *)
Definition lookup_impl (data : matrix) (ii : string) : result (option row) :=
  match implMap cfg !! ii with
  | None => Throw (Error (ii +:+ " not in impl"))
  | Some info =>
      Ok ((fun bm => {| row_field := fieldToStr ii;
                        row_name := name info;
                        iname := ii;
                        byMachine := bm |}) <$> data !! ii)
  end.

(** The body of the reduce that fills [meanByImplementation]. *)
Definition geomean (bm : gmap string number) : number :=
  let mul := fold_left (fun a m => Num.mul a (num_at bm m)) (machineOrder cfg) (of_Z 1) in
  Math_pow eng mul (Num.div (of_Z 1) (of_nat (length (machineOrder cfg)))).

Definition meanByImplementation (d : list row) : gmap string number :=
  fold_left (fun acc r => <[iname r := geomean (byMachine r)]> acc) d ∅.

(** [Object.values(o)]; [Math.min] does not depend on the order. *)
Definition Object_values (o : gmap string number) : list number :=
  (map_to_list o).*2.

Definition smallestMean (d : list row) : number :=
  Math_min (Object_values (meanByImplementation d)).

Definition smallestImplByMachine (d : list row) : gmap string number :=
  fold_left
    (fun acc machine =>
       <[machine := Math_min (map (fun r => num_at (byMachine r) machine) d)]> acc)
    (machineOrder cfg) ∅.

(** [FACTOR] is the constant 1000, so [cyclesStr] is always the scaled
    value with a "k". *)
Definition printCycles (c small : number) : string :=
  let isSmallest := Num.eqb c small in
  let ratio := toFixed eng 2 (Num.div c small) in
  let ratioStr := "{\tiny (" +:+ ratio +:+ "x)}" in
  let cyclesStr := toFixed eng 0 (Num.div c (of_Z FACTOR)) +:+ "k" in
  let m := if isSmallest
           then "\textbf{" +:+ cyclesStr +:+ " " +:+ ratioStr +:+ "}"
           else cyclesStr +:+ " " +:+ ratioStr in
  Str.padStart PAD_CYC m.

Definition host_cells (d : list row) (r : row) : list string :=
  map (fun machine =>
         printCycles (num_at (byMachine r) machine)
                     (num_at (smallestImplByMachine d) machine))
      (machineOrder cfg).

Definition mean_cell (d : list row) (r : row) : string :=
  printCycles (num_at (meanByImplementation d) (iname r)) (smallestMean d).

Definition render_row (d : list row) (r : row) : string :=
  Str.join " & "
    ([ ""; Str.padEnd PAD_NAME (row_name r); Str.padStart PAD_FIELD (row_field r) ]
     ++ host_cells d r ++ [ mean_cell d r ]) +:+ " \\".

(** [CAPTION_MAP[implementations[0].split("/")[1]].heading], for a folder
    name that is not inherited from [Object.prototype] (see
    [plain_tables]). *)
Definition heading_of (implementations : list string) : result string :=
  match implementations with
  | [] => Throw (TypeError "implementations[0] is undefined")
  | i0 :: _ =>
      let folderFolder := default "undefined" (Str.split "/" i0 !! 1%nat) in
      match CAPTION_MAP cfg !! folderFolder with
      | Some heading => Ok heading
      | None => Throw (TypeError "CAPTION_MAP[folderFolder] is undefined")
      end
  end.

Definition multirow (implementations : list string) (heading : string) : string :=
  "\multirow{" +:+ Str.of_nat (length implementations) +:+
  "}{*}{\rotatebox[origin=c]{90}{\centering " +:+ heading +:+ "}}".

(** The rows of one Section: the configured implementations that have an
    entry in the matrix. *)
Definition section_rows (data : matrix) (implementations : list string)
    : result (list row) :=
  mapped <-- mapR (lookup_impl data) implementations ;;
  Ok (omap id mapped).

(** The callback of [implOrder.map]: one Section block. *)
Definition render_section (data : matrix) (implementations : list string)
    : result string :=
  heading <-- heading_of implementations ;;
  d <-- section_rows data implementations ;;
  Ok (Str.join Str.nl
        ("\midrule" :: multirow implementations heading :: map (render_row d) d)).

Definition table_head : result string :=
  names <-- mapR (fun m =>
                    match machinenameMap cfg !! m with
                    | Some n => Ok (Str.padStart PAD_CYC n)
                    | None => Throw (TypeError "machinenameMap[m] is undefined")
                    end) (machineOrder cfg) ;;
  Ok (Str.join Str.nl
        [ "\begin{tabular}{cll" +:+
            Str.join "" (map (fun _ => "r") (machineOrder cfg)) +:+ "r}";
          "\toprule";
          Str.join " & "
            ([ ""; ROW_DESCRIPTION; FIELD_DESCRIPTION ] ++ names ++ [ MEAN_DESCRIPTION ])
            +:+ "\\";
          "" ]).

Definition table_bottom : string :=
  Str.join Str.nl [ ""; "\bottomrule"; "\end{tabular}"; "\vspace{2mm} " ].

Definition genBarTable (data : matrix) : result string :=
  head <-- table_head ;;
  blocks <-- mapR (render_section data) (implOrder cfg) ;;
  let meat := Str.join (Str.nl +:+ Str.nl) blocks in
  Ok (head +:+ meat +:+ table_bottom).

(** The script from top to bottom: [data] is built while the module
    loads; then the three [console.log] calls run in order.  The result
    is the list of strings logged so far and the exception that ended
    the run, if any. *)
Definition main (root : option listing) : list string * option exn :=
  match root with
  | None => ([], Some (FsError "readdirSync"))
  | Some dir =>
      match data cfg dir with
      | Throw e => ([], Some e)
      | Ok m =>
          let logged := [ table_start CAPTION LABEL ] in
          match genBarTable m with
          | Throw e => (logged, Some e)
          | Ok table => (logged ++ [ table; TABLE_END ], None)
          end
      end
  end.

End Render.

(** ** An engine to run the model with

    [Math.pow] by repeated correctly rounded square roots, for the
    exponents [2^-k] (the source has eight hosts, hence the exponent
    1/8); and the shortest digit string that reads back as the same
    number, in exponent form, for [Number::toString] from 1e21 upwards. *)

Module SqrtEngine.

Fixpoint sqrt_iter (k : nat) (x : number) : number :=
  match k with
  | O => x
  | S k' => sqrt_iter k' (Num.sqrt x)
  end.

Definition pow (base exponent : number) : number :=
  match exponent with
  | S754_finite false 4503599627370496 e =>
      if (e <=? -52) && (-116 <=? e) then sqrt_iter (Z.to_nat (- 52 - e)) base
      else NaN
  | _ => NaN
  end.

Fixpoint strip_zeros_rev (s : list ascii) : list ascii :=
  match s with
  | "0"%char :: s' => strip_zeros_rev s'
  | _ => s
  end.

Definition exp_form (v : Z) : string :=
  let ds := list_ascii_of_string (Str.of_N (Z.to_N v)) in
  let e := Str.of_nat (length ds - 1) in
  match rev (strip_zeros_rev (rev ds)) with
  | [] => "0"
  | [c] => String c "e+" +:+ e
  | c :: rest => String c "." +:+ string_of_list_ascii rest +:+ "e+" +:+ e
  end.

Fixpoint shortest (fuel k : nat) (digits : nat) (x : Z) : Z :=
  match fuel with
  | O => x
  | S fuel' =>
      let p := 10 ^ Z.of_nat (digits - k) in
      let lo := (x / p) * p in
      let hi := lo + p in
      let near := if 2 * (x - lo) <=? p then lo else hi in
      let far := if 2 * (x - lo) <=? p then hi else lo in
      if Num.eqb (of_Z near) (of_Z x) then near
      else if Num.eqb (of_Z far) (of_Z x) then far
      else shortest fuel' (S k) digits x
  end.

Definition toString (x : number) : string :=
  match x with
  | S754_finite _ m e =>
      let v := Z.pos m * 2 ^ e in
      exp_form (shortest 17 1 (String.length (Str.of_N (Z.to_N v))) v)
  | _ => "NaN"
  end.

Definition engine : Engine :=
  {| pow_approx := pow; toString_exp := toString |}.

End SqrtEngine.


(** ** Derived views of the loader *)

(** What the [datafile] chain does to one line. *)
Definition parse_line (line : string) : option observation :=
  if Str.includes "objsize" line then None
  else observe <$> exec DB_REG_OK line.

(** The observations parsed from the allow-listed files of a listing. *)
Definition observations (cfg : Config) (dir : listing) : list observation :=
  concat (map (fun e => match e.2 with
                        | Some text => datafile text
                        | None => []
                        end)
              (List.filter (allowed cfg) dir)).

(* the observations of one implementation, in order *)
Definition of_impl (i : string) (l : list observation) : list observation :=
  filter (fun o => impl o = i) l.

(** What [set acc i m v] does to the row of [i]. *)
Definition set_row (i m : string) (v : number)
    (cur : option (gmap string number)) : option (gmap string number) :=
  if reserved i then cur
  else if reserved m then Some (default ∅ cur)
  else Some (<[m := v]> (default ∅ cur)).

(** What reading one file does to the row of implementation [i]. *)
Definition host_step (i : string) (text : string)
    (cur : option (gmap string number)) : option (gmap string number) :=
  match minBy_cycles (of_impl i (datafile text)) with
  | Some o => set_row i (machine o) (cycles o) cur
  | None => cur
  end.

(** The row of implementation [i] after the files of a listing, read in
    order; an unreadable file ends the run. *)
Fixpoint row_after (i : string) (files : listing)
    (cur : option (gmap string number)) : option (gmap string number) :=
  match files with
  | [] => cur
  | (_, Some text) :: files' => row_after i files' (host_step i text cur)
  | (_, None) :: files' => cur
  end.

(** Every parsed line of a file carries the name of its directory. *)
Definition own_host_only (cfg : Config) (dir : listing) : Prop :=
  Forall (fun e => match e.2 with
                   | Some text => Forall (fun o => machine o = e.1) (datafile text)
                   | None => True
                   end)
         (List.filter (allowed cfg) dir).

(* the same as a test *)
Definition own_host_onlyb (cfg : Config) (dir : listing) : bool :=
  forallb (fun e => match e.2 with
                    | Some text => forallb (fun o => String.eqb (machine o) e.1) (datafile text)
                    | None => true
                    end)
          (List.filter (allowed cfg) dir).

(* [gs] is the grouping of [l] by implementation *)
Definition grouped (gs : list (string * list observation)) (l : list observation) : Prop :=
  NoDup gs.*1 /\
  (forall k vs, (k, vs) ∈ gs -> vs = of_impl k l /\ vs <> []) /\
  (forall o, o ∈ l -> impl o ∈ gs.*1).

(* [b] is an element of [l] with the least cycle count *)
Definition least_of (b : observation) (l : list observation) : Prop :=
  b ∈ l /\ is_nan (cycles b) = false /\
  forall o, o ∈ l -> is_nan (cycles o) = false -> Num.leb (cycles b) (cycles o) = true.

(** ** Derived views of the renderer *)

(** the values of one host column, and the summary values, of the rows [d] *)
Definition column (d : list row) (machine : string) : list number :=
  map (fun r => num_at (byMachine r) machine) d.

Definition means (eng : Engine) (cfg : Config) (d : list row) : list number :=
  map (fun r => geomean eng cfg (byMachine r)) d.

(** the text of a cell before emphasis and padding *)
Definition cell_text (eng : Engine) (c small : number) : string :=
  toFixed eng 0 (Num.div c (of_Z FACTOR)) +:+ "k" +:+ " " +:+
  "{\tiny (" +:+ toFixed eng 2 (Num.div c small) +:+ "x)}".

(* the configured implementations that have an entry in the matrix *)
Definition present (data : matrix) (implementations : list string) : list string :=
  filter (fun ii => is_Some (data !! ii)) implementations.

(** the implementations named by some Section *)
Definition configured (cfg : Config) (i : string) : Prop :=
  exists implementations, implementations ∈ implOrder cfg /\ i ∈ implementations.

#[global] Instance configured_dec cfg i : Decision (configured cfg i).
Proof.
  refine (cast_if (decide (Exists (fun s => i ∈ s) (implOrder cfg))));
    unfold configured; rewrite Exists_exists in *; naive_solver.
Defined.

(* the observations a Section can show *)
Definition shown (cfg : Config) (l : list observation) : list observation :=
  filter (fun o => configured cfg (impl o)) l.

(** Two directory entries with the same name whose files, when both can
    be read, hold the same records of configured implementations. *)
Definition same_shown (cfg : Config) (e e' : string * option string) : Prop :=
  e.1 = e'.1 /\
  match e.2, e'.2 with
  | Some text, Some text' => shown cfg (datafile text) = shown cfg (datafile text')
  | None, None => True
  | _, _ => False
  end.

(* two matrices with the same rows for the configured implementations *)
Definition agree (cfg : Config) (m m' : matrix) : Prop :=
  forall i, configured cfg i -> m !! i = m' !! i.

(** ** The order of numbers

    [SFcompare] orders the numbers other than NaN like the triples
    [key]: sign class, then exponent, then mantissa. *)

Definition key (x : number) : Z * Z * Z :=
  match x with
  | S754_infinity true => (-2, 0, 0)
  | S754_finite true m e => (-1, - e, - Z.pos m)
  | S754_zero _ | S754_nan => (0, 0, 0)
  | S754_finite false m e => (1, e, Z.pos m)
  | S754_infinity false => (2, 0, 0)
  end.

Definition lt3 (a b : Z * Z * Z) : Prop :=
  a.1.1 < b.1.1 \/ (a.1.1 = b.1.1 /\ (a.1.2 < b.1.2 \/ (a.1.2 = b.1.2 /\ a.2 < b.2))).

Definition eq3 (a b : Z * Z * Z) : Prop :=
  a.1.1 = b.1.1 /\ a.1.2 = b.1.2 /\ a.2 = b.2.

(** the integer a number stands for, when it is one *)
Definition to_Z (x : number) : option Z :=
  match x with
  | S754_zero _ => Some 0
  | S754_finite s m e =>
      (if s then Z.opp else (fun z => z)) <$>
      (if 0 <=? e then Some (Z.pos m * 2 ^ e)
       else if Z.pos m mod 2 ^ (- e) =? 0 then Some (Z.pos m / 2 ^ (- e))
       else None)
  | _ => None
  end.


(** ** Sample inputs *)

Module Sample.

(* a benchmark line of the shape SUPERCOP writes *)
Definition bench_line (status host implementation cycle_count : string) : string :=
  "20221025 " +:+ host +:+ " amd64 20221124 crypto_scalarmult curve25519 try 1e0a2b3c " +:+
  status +:+ " " +:+ cycle_count +:+ " 2345 3400000000 " +:+ implementation +:+
  " gcc_-march=native_-O3".

Definition sandy2x : string := "crypto_scalarmult/curve25519/sandy2x".
Definition amd64_64 : string := "crypto_scalarmult/curve25519/amd64-64".
(* an implementation no Section names *)
Definition ref10 : string := "crypto_scalarmult/curve25519/ref10".

Definition file (lines : list string) : option string :=
  Some (Str.join Str.nl lines).

(** Two hosts, one implementation; the first host has two competing
    records. *)
Definition dir_two_hosts : listing :=
  [ ("kivsa", file [ bench_line "ok" "kivsa" sandy2x "5000";
                     bench_line "ok" "kivsa" sandy2x "5200" ]);
    ("nakhash", file [ bench_line "ok" "nakhash" sandy2x "2000" ]) ].

(** The same with a record of an implementation outside the Sections. *)
Definition dir_two_hosts_extra : listing :=
  [ ("kivsa", file [ bench_line "ok" "kivsa" sandy2x "5000";
                     bench_line "ok" "kivsa" ref10 "100";
                     bench_line "ok" "kivsa" sandy2x "5200" ]);
    ("nakhash", file [ bench_line "ok" "nakhash" sandy2x "2000" ]) ].

(** The file of one host holds lines of another host. *)
Definition dir_foreign_lines : listing :=
  [ ("kivsa", file [ bench_line "ok" "kivsa" sandy2x "10";
                     bench_line "ok" "nakhash" sandy2x "50" ]);
    ("nakhash", file [ bench_line "ok" "nakhash" sandy2x "100" ]) ].

Definition dir_foreign_only : listing :=
  [ ("kivsa", file [ bench_line "ok" "nakhash" sandy2x "50" ]) ].

(** Two implementations of one Section tie on a host. *)
Definition dir_tie : listing :=
  [ ("kivsa", file [ bench_line "ok" "kivsa" sandy2x "1000";
                     bench_line "ok" "kivsa" amd64_64 "1000" ]) ].

(** One Section that names an implementation [implMap] does not have. *)
Definition config_unknown_impl : Config :=
  {| CAPTION_MAP := supercop_CAPTION_MAP;
     implOrder := [ [ ref10 ] ];
     implMap := supercop_implMap;
     machineOrder := supercop_machineOrder;
     machinenameMap := supercop_machinenameMap;
     languageMap := supercop_languageMap |}.

(* the first Section of the source *)
Definition curve25519_section : list string :=
  default [] (implOrder supercop_config !! 0%nat).

(** [acc[i][h]] after loading a listing *)
Definition stored (cfg : Config) (dir : listing) (i h : string) : option number :=
  match data cfg dir with
  | Ok m => m !! i ≫= (.!! h)
  | Throw _ => None
  end.

(** The rows of a Section after loading a listing. *)
Definition rows_of (cfg : Config) (dir : listing) (implementations : list string)
    : list row :=
  match data cfg dir with
  | Ok m => match section_rows cfg m implementations with
            | Ok d => d
            | Throw _ => []
            end
  | Throw _ => []
  end.

Definition matrix_of (cfg : Config) (dir : listing) : matrix :=
  match data cfg dir with
  | Ok m => m
  | Throw _ => ∅
  end.

End Sample.


Import Sample.

(* the engine the sample runs use *)
Abbreviation sqrt_engine := SqrtEngine.engine.

(** ** Ordinary property names *)

(** The names every plain object inherits from [Object.prototype]. *)
Definition Object_prototype_names : list string :=
  [ "constructor"; "__defineGetter__"; "__defineSetter__"; "hasOwnProperty";
    "__lookupGetter__"; "__lookupSetter__"; "isPrototypeOf"; "propertyIsEnumerable";
    "toString"; "valueOf"; "__proto__"; "toLocaleString" ].

Definition inherited (k : string) : bool :=
  bool_decide (k ∈ Object_prototype_names).

(** [k in o] for a plain object [o]: [k] is an own key of [o] or a name
    [o] inherits. *)
Definition has_property {A} (o : gmap string A) (k : string) : bool :=
  bool_decide (is_Some (o !! k)) || inherited k.

(** A key that [set] and the [in] operator treat like any other: it is
    not reserved, not inherited, and not made of digits (when the key
    that follows in the path is an array index, lodash creates the
    missing row as an array). *)
Definition plain_key (k : string) : bool :=
  negb (reserved k) && negb (inherited k) && negb (all_in digit k).

Definition plain_record (o : observation) : bool :=
  plain_key (impl o) && plain_key (machine o).

(** Every record parsed from the allow-listed files has plain keys. *)
Definition plain_records (cfg : Config) (dir : listing) : bool :=
  forallb plain_record (observations cfg dir).

(** The tables use no inherited name where the script tests or reads a
    key: the identifiers of the Sections ([ii in implMap]), the folder of
    the first identifier of each Section ([CAPTION_MAP[folderFolder]]),
    the hosts ([machinenameMap[m]], [acc[machine]]) and the fields of
    [implMap] ([field in languageMap]). *)
Definition plain_tables (cfg : Config) : bool :=
  forallb (fun implementations =>
             forallb (fun ii => negb (inherited ii)) implementations &&
             match implementations with
             | i0 :: _ =>
                 negb (inherited (default "undefined" (Str.split "/" i0 !! 1%nat)))
             | [] => true
             end)
          (implOrder cfg) &&
  forallb (fun m => negb (inherited m)) (machineOrder cfg) &&
  forallb (fun kv => negb (inherited (field kv.2))) (map_to_list (implMap cfg)).

(** ** Further views

    Notions the properties beyond the Sections' claims are stated with. *)

(* the characters lodash reads as separators in a property path *)
Definition path_char (c : ascii) : bool :=
  is_char "." c || is_char "[" c || is_char "]" c.

(* the file of an entry can be read and its parsed lines carry the entry's name *)
Definition own_file (e : string * option string) : Prop :=
  match e.2 with
  | Some text => Forall (fun o => machine o = e.1) (datafile text)
  | None => False
  end.

(* every name is listed once, and every file is the file of its own host *)
Definition tidy (files : listing) : Prop :=
  NoDup files.*1 /\ Forall own_file files.

(* one step of [Math.min] on a number that is not NaN *)
Definition min_step (lowest x : number) : number :=
  match x, lowest with
  | S754_zero true, S754_zero false => x
  | _, _ => if Num.ltb x lowest then x else lowest
  end.

(* a value [Number] can give for a string of digits: +0, a positive
   finite number or +Infinity *)
Definition is_count (x : number) : bool :=
  match x with
  | S754_zero false | S754_finite false _ _ | S754_infinity false => true
  | _ => false
  end.

(* every host has a column title, every Section a heading, and every
   identifier of a Section its display data *)
Definition well_configured (cfg : Config) : Prop :=
  (forall h, h ∈ machineOrder cfg -> is_Some (machinenameMap cfg !! h)) /\
  (forall implementations, implementations ∈ implOrder cfg ->
     (exists heading, heading_of cfg implementations = Ok heading) /\
     (forall ii, ii ∈ implementations -> is_Some (implMap cfg !! ii))).

(* the same as a test *)
Definition well_configuredb (cfg : Config) : bool :=
  forallb (fun h => bool_decide (is_Some (machinenameMap cfg !! h))) (machineOrder cfg) &&
  forallb (fun implementations =>
             match heading_of cfg implementations with Ok _ => true | Throw _ => false end &&
             forallb (fun ii => bool_decide (is_Some (implMap cfg !! ii))) implementations)
          (implOrder cfg).




(** Sample inputs for these properties. *)

(* two implementations of one Section with different counts on a host *)
Definition dir_two_impls : listing :=
  [ ("kivsa", file [ bench_line "ok" "kivsa" sandy2x "1000";
                     bench_line "ok" "kivsa" amd64_64 "1100" ]) ].

(* a record whose implementation is a reserved key *)
Definition dir_reserved : listing :=
  [ ("kivsa", file [ bench_line "ok" "kivsa" "constructor" "5000" ]) ].




(* a Section with two unknown identifiers behind a known one, after a
   Section that renders *)
Definition config_two_unknown : Config :=
  {| CAPTION_MAP := supercop_CAPTION_MAP;
     implOrder := [ [ sandy2x; amd64_64 ];
                    [ sandy2x; ref10; "crypto_scalarmult/curve25519/donna" ] ];
     implMap := supercop_implMap;
     machineOrder := supercop_machineOrder;
     machinenameMap := supercop_machinenameMap;
     languageMap := supercop_languageMap |}.

(* the listing [dir_two_hosts] read in the other order *)
Definition dir_two_hosts_swapped : listing :=
  [ ("nakhash", file [ bench_line "ok" "nakhash" sandy2x "2000" ]);
    ("kivsa", file [ bench_line "ok" "kivsa" sandy2x "5000";
                     bench_line "ok" "kivsa" sandy2x "5200" ]) ].

(* the file of kivsa in [dir_two_hosts] *)
Definition kivsa_text : string :=
  Str.join Str.nl [ bench_line "ok" "kivsa" sandy2x "5000";
                    bench_line "ok" "kivsa" sandy2x "5200" ].

(* the file of nakhash in [dir_two_hosts] *)
Definition nakhash_text : string :=
  Str.join Str.nl [ bench_line "ok" "nakhash" sandy2x "2000" ].

(* the first kept record of [kivsa_text] *)
Definition kivsa_5000 : observation :=
  {| impl := sandy2x; cycles := Number "5000"; machine := "kivsa" |}.

(* two rows of one Section: a record of zero cycles beside one of 1000 *)
Definition row_zero : row :=
  {| row_field := "asm"; row_name := "sandy2x"; iname := sandy2x;
     byMachine := {[ "kivsa" := Number "0" ]} |}.

Definition row_1000 : row :=
  {| row_field := "asm"; row_name := "amd64-64"; iname := amd64_64;
     byMachine := {[ "kivsa" := Number "1000" ]} |}.

Definition zero_rows : list row := [ row_zero; row_1000 ].

(* the result of a run that is known to succeed *)
Definition value_of {A} (dflt : A) (r : result A) : A :=
  match r with
  | Ok a => a
  | Throw _ => dflt
  end.


(** * Strings *)

Lemma sapp_cons a (s t : string) : String a s +:+ t = String a (s +:+ t).
Proof. reflexivity. Qed.

Lemma sapp_nil_l (s : string) : EmptyString +:+ s = s.
Proof. reflexivity. Qed.

Lemma sapp_nil_r (s : string) : s +:+ EmptyString = s.
Proof. induction s as [|a s IH]; [reflexivity|]. rewrite sapp_cons, IH. reflexivity. Qed.

Lemma sapp_assoc (s t u : string) : (s +:+ t) +:+ u = s +:+ t +:+ u.
Proof.
  induction s as [|a s IH]; [reflexivity|].
  rewrite !sapp_cons, IH. reflexivity.
Qed.

Lemma slength_app (s t : string) :
  String.length (s +:+ t) = (String.length s + String.length t)%nat.
Proof.
  induction s as [|a s IH]; [reflexivity|].
  rewrite sapp_cons. simpl. rewrite IH. reflexivity.
Qed.

Lemma substring_0_app (s t : string) :
  String.substring 0 (String.length s) (s +:+ t) = s.
Proof.
  induction s as [|a s IH].
  - destruct t; reflexivity.
  - rewrite sapp_cons. simpl. rewrite IH. reflexivity.
Qed.

Lemma consumed_prefix (s t : string) :
  String.substring 0 (String.length (s +:+ t) - String.length t) (s +:+ t) = s.
Proof.
  rewrite slength_app.
  replace (String.length s + String.length t - String.length t)%nat
    with (String.length s) by lia.
  apply substring_0_app.
Qed.

Lemma strip_prefix_Some l s s' : strip_prefix l s = Some s' <-> s = l +:+ s'.
Proof.
  revert s. induction l as [|a l IH]; intros s; simpl.
  - rewrite sapp_nil_l. split; intros H; [injection H as ->|subst]; reflexivity.
  - destruct s as [|b s]; rewrite sapp_cons.
    + split; discriminate.
    + destruct (Ascii.eqb_spec a b) as [->|Hne].
      * rewrite IH. split; intros H; [subst|injection H as ->]; reflexivity.
      * split; [discriminate|]. intros H. injection H as -> _. contradiction.
Qed.

(** * The matcher against the denotation *)

Lemma plus_loop_sound {A} p s (k : string -> option A) x :
  plus_loop p s k = Some x ->
  exists s1 s2, s = s1 +:+ s2 /\ s1 <> EmptyString /\ all_in p s1 = true /\ k s2 = Some x.
Proof.
  revert x. induction s as [|a s IH]; intros x; simpl; [discriminate|].
  destruct (p a) eqn:Hp; [|discriminate].
  destruct (plus_loop p s k) as [y|] eqn:Hloop.
  - intros [= ->]. destruct (IH x eq_refl) as (s1 & s2 & -> & _ & Hall & Hk).
    exists (String a s1), s2. rewrite sapp_cons. simpl. rewrite Hp, Hall. auto.
  - intros Hk. exists (String a EmptyString), s. simpl. rewrite Hp. auto.
Qed.

Lemma plus_loop_complete {A} p s1 s2 (k : string -> option A) x :
  s1 <> EmptyString -> all_in p s1 = true -> k s2 = Some x ->
  exists y, plus_loop p (s1 +:+ s2) k = Some y.
Proof.
  revert x. induction s1 as [|a s1 IH]; intros x Hne Hall Hk; [contradiction|].
  rewrite sapp_cons. simpl in *. apply andb_true_iff in Hall as [-> Hall].
  destruct s1 as [|b s1].
  - rewrite sapp_nil_l. destruct (plus_loop p s2 k); eauto.
  - destruct (IH x) as [y ->]; eauto.
Qed.

Lemma matcher_sound {A} r : forall s g (k : string -> groups -> option A) x,
  matcher r s g k = Some x ->
  exists s1 s2 g', s = s1 +:+ s2 /\ sem r s1 g g' /\ k s2 g' = Some x.
Proof.
  induction r as [l|p|r1 IH1 r2 IH2|r1 IH1 r2 IH2|r IH|name r IH];
    intros s g k x; simpl.
  - destruct (strip_prefix l s) as [s'|] eqn:Hs; [|discriminate].
    apply strip_prefix_Some in Hs as ->. intros Hk.
    exists l, s', g. eauto using sem.
  - intros (s1 & s2 & -> & Hne & Hall & Hk)%plus_loop_sound.
    exists s1, s2, g. eauto using sem.
  - intros (s1 & s' & g' & -> & Hs1 & (s2 & s3 & g'' & -> & Hs2 & Hk)%IH2)%IH1.
    exists (s1 +:+ s2), s3, g''. rewrite sapp_assoc. eauto using sem.
  - destruct (matcher r1 s g k) as [y|] eqn:H1.
    + intros [= ->]. apply IH1 in H1 as (s1 & s2 & g' & -> & Hs & Hk).
      exists s1, s2, g'. eauto using sem.
    + intros (s1 & s2 & g' & -> & Hs & Hk)%IH2.
      exists s1, s2, g'. eauto using sem.
  - destruct (matcher r s g k) as [y|] eqn:H1.
    + intros [= ->]. apply IH in H1 as (s1 & s2 & g' & -> & Hs & Hk).
      exists s1, s2, g'. eauto using sem.
    + intros Hk. exists EmptyString, s, g. eauto using sem.
  - intros (s1 & s2 & g' & -> & Hs & Hk)%IH.
    rewrite consumed_prefix in Hk.
    exists s1, s2, (<[name := s1]> g'). eauto using sem.
Qed.

Lemma matcher_complete {A} r s1 g g' :
  sem r s1 g g' ->
  forall s2 (k : string -> groups -> option A) x,
    k s2 g' = Some x -> exists y, matcher r (s1 +:+ s2) g k = Some y.
Proof.
  induction 1 as [l g|p s g Hne Hall|r1 r2 s1 s2 g g' g'' _ IH1 _ IH2
                 |r1 r2 s g g' _ IH|r1 r2 s g g' _ IH|r g|r s g g' _ IH
                 |name r s g g' _ IH]; intros s3 k x Hk; simpl.
  - assert (strip_prefix l (l +:+ s3) = Some s3) as -> by (by apply strip_prefix_Some).
    eauto.
  - eapply plus_loop_complete; eauto.
  - rewrite sapp_assoc. destruct (IH2 _ _ _ Hk) as [y Hy]. eapply IH1, Hy.
  - destruct (IH _ _ _ Hk) as [y ->]. eauto.
  - destruct (matcher r1 (s +:+ s3) g k); eauto.
  - rewrite sapp_nil_l. destruct (matcher r s3 g k); eauto.
  - destruct (IH _ _ _ Hk) as [y ->]. eauto.
  - eapply IH. rewrite consumed_prefix. exact Hk.
Qed.

Lemma exec_sound r line g : exec r line = Some g -> matches_in r line g.
Proof.
  induction line as [|a line IH]; simpl.
  - destruct (matcher r EmptyString ∅ _) as [g0|] eqn:Hm; [|discriminate].
    intros [= ->]. apply matcher_sound in Hm as (s1 & s2 & g' & Hs & Hsem & [= ->]).
    exists EmptyString, s1, s2. auto.
  - destruct (matcher r (String a line) ∅ _) as [g0|] eqn:Hm.
    + intros [= ->]. apply matcher_sound in Hm as (s1 & s2 & g' & Hs & Hsem & [= ->]).
      exists EmptyString, s1, s2. auto.
    + intros (pre & mid & post & -> & Hsem)%IH.
      exists (String a pre), mid, post. auto.
Qed.

Lemma exec_first r s g :
  matcher r s ∅ (fun _ g => Some g) = Some g -> exec r s = Some g.
Proof. destruct s; simpl; intros ->; reflexivity. Qed.

Lemma exec_complete r line g :
  matches_in r line g -> exists g', exec r line = Some g'.
Proof.
  intros (pre & mid & post & -> & Hsem).
  induction pre as [|a pre IH].
  - rewrite sapp_nil_l.
    destruct (matcher_complete (A := groups) r mid ∅ g Hsem post (fun _ g => Some g) g eq_refl)
      as [y Hy].
    exists y. by apply exec_first.
  - rewrite sapp_cons. simpl. destruct (matcher r _ ∅ _); eauto.
Qed.


(** * The pattern and the field grammar *)

Ltac sem_inv :=
  repeat match goal with
  | H : sem (Seq _ _) _ _ _ |- _ => inversion H; subst; clear H
  | H : sem (Group _ _) _ _ _ |- _ => inversion H; subst; clear H
  | H : sem (Lit _) _ _ _ |- _ => inversion H; subst; clear H
  | H : sem (Plus _) _ _ _ |- _ => inversion H; subst; clear H
  | H : sem (Opt _) _ _ _ |- _ => inversion H; subst; clear H
  | H : sem (Alt _ _) _ _ _ |- _ => inversion H; subst; clear H
  end.

Lemma sem_DB_REG_OK_fields mid g :
  sem DB_REG_OK mid ∅ g ->
  exists l, well_formed l /\ mid = text_of l /\ g = groups_of l.
Proof.
  unfold DB_REG_OK, seq. intros H. sem_inv.
  all: match goal with
       | |- context [ "placeasm:" ] =>
           eexists (Build_log_line _ _ _ _ _ _ (Some (_, _)) _ _ _ _ _ _ _ _)
       | |- _ =>
           eexists (Build_log_line _ _ _ _ _ _ None _ _ _ _ _ _ _ _)
       end.
  all: split; [|split; reflexivity].
  all: unfold well_formed, token; simpl; tauto.
Qed.

Lemma sem_DB_REG_OK_text l :
  well_formed l -> sem DB_REG_OK (text_of l) ∅ (groups_of l).
Proof.
  unfold well_formed, token, text_of, groups_of, DB_REG_OK, seq.
  intros (? & ? & ? & ? & ? & ? & Hp & ? & Hs & ? & ? & ? & ? & ? & ?).
  repeat (first [ eapply sem_Seq | eapply sem_Group | apply sem_Lit
                | apply sem_Plus; tauto ]).
  - destruct (l_placeasm l) as [[a b]|].
    + apply sem_Opt_take.
      repeat (first [ eapply sem_Seq | apply sem_Lit | apply sem_Plus; tauto ]).
    + apply sem_Opt_skip.
  - destruct Hs as [-> | ->]; [apply sem_Alt_l | apply sem_Alt_r]; apply sem_Lit.
Qed.

Lemma groups_of_lookup l :
  groups_of l !! "impl" = Some (l_impl l) /\
  groups_of l !! "cycles" = Some (l_cycles l) /\
  groups_of l !! "host" = Some (l_host l).
Proof. unfold groups_of. by simplify_map_eq. Qed.


(** * The order of numbers *)

Lemma num_compare_key x y :
  is_nan x = false -> is_nan y = false ->
  exists c, SFcompare x y = Some c /\
    (c = Lt <-> lt3 (key x) (key y)) /\
    (c = Eq <-> eq3 (key x) (key y)) /\
    (c = Gt <-> lt3 (key y) (key x)).
Proof.
  unfold lt3, eq3.
  destruct x as [sx|sx| |sx mx ex], y as [sy|sy| |sy my ey]; try discriminate;
    intros _ _; simpl;
    repeat match goal with s : bool |- _ => destruct s end; simpl;
    change (Pos.compare_cont Eq ?a ?b) with (Pos.compare a b);
    try (eexists; split; [reflexivity|]; simpl; intuition (try discriminate; try lia)).
  all: destruct (Z.compare_spec ex ey); [destruct (Pos.compare_spec mx my)|..];
    simpl; intuition (try discriminate; try lia).
Qed.

Lemma num_ltb_key x y :
  is_nan x = false -> is_nan y = false ->
  Num.ltb x y = true <-> lt3 (key x) (key y).
Proof.
  intros Hx Hy. destruct (num_compare_key x y Hx Hy) as (c & Hc & Hlt & _ & _).
  unfold Num.ltb, SFltb. rewrite Hc, <- Hlt. destruct c; intuition discriminate.
Qed.

Lemma num_leb_key x y :
  is_nan x = false -> is_nan y = false ->
  Num.leb x y = true <-> ~ lt3 (key y) (key x).
Proof.
  intros Hx Hy. destruct (num_compare_key x y Hx Hy) as (c & Hc & _ & _ & Hgt).
  unfold Num.leb, SFleb. rewrite Hc, <- Hgt. destruct c; intuition discriminate.
Qed.

Lemma num_eqb_key x y :
  is_nan x = false -> is_nan y = false ->
  Num.eqb x y = true <-> eq3 (key x) (key y).
Proof.
  intros Hx Hy. destruct (num_compare_key x y Hx Hy) as (c & Hc & _ & Heq & _).
  unfold Num.eqb, SFeqb. rewrite Hc, <- Heq. destruct c; intuition discriminate.
Qed.

Lemma num_ltb_not_nan x y : Num.ltb x y = true -> is_nan x = false /\ is_nan y = false.
Proof. destruct x, y; try discriminate; auto. Qed.

Lemma num_leb_not_nan x y : Num.leb x y = true -> is_nan x = false /\ is_nan y = false.
Proof. destruct x, y; try discriminate; auto. Qed.

Lemma num_eqb_not_nan x y : Num.eqb x y = true -> is_nan x = false /\ is_nan y = false.
Proof. destruct x, y; try discriminate; auto. Qed.

Ltac by_key :=
  repeat match goal with
  | H : Num.ltb ?x ?y = true |- _ =>
      let Hn := fresh in
      pose proof (num_ltb_not_nan _ _ H) as [? ?];
      apply num_ltb_key in H; [|assumption..]
  | H : Num.leb ?x ?y = true |- _ =>
      pose proof (num_leb_not_nan _ _ H) as [? ?];
      apply num_leb_key in H; [|assumption..]
  | H : Num.eqb ?x ?y = true |- _ =>
      pose proof (num_eqb_not_nan _ _ H) as [? ?];
      apply num_eqb_key in H; [|assumption..]
  | H : Num.ltb ?x ?y = false |- _ =>
      apply not_true_iff_false in H; rewrite num_ltb_key in H by assumption
  end;
  try (apply num_leb_key; [assumption..|]);
  try (apply num_ltb_key; [assumption..|]);
  try (apply num_eqb_key; [assumption..|]);
  try (apply not_true_iff_false; rewrite num_ltb_key by assumption);
  unfold lt3, eq3 in *; lia.

Lemma num_leb_refl x : is_nan x = false -> Num.leb x x = true.
Proof. intros. by_key. Qed.

Lemma num_leb_trans x y z : Num.leb x y = true -> Num.leb y z = true -> Num.leb x z = true.
Proof. intros. by_key. Qed.

Lemma num_not_ltb_leb x y :
  is_nan x = false -> is_nan y = false -> Num.ltb x y = false -> Num.leb y x = true.
Proof. intros. by_key. Qed.

Lemma num_ltb_leb x y : Num.ltb x y = true -> Num.leb x y = true.
Proof. intros. by_key. Qed.

Lemma num_eqb_leb x y : Num.eqb x y = true -> Num.leb x y = true.
Proof. intros. by_key. Qed.

Lemma num_eqb_sym x y : Num.eqb x y = true -> Num.eqb y x = true.
Proof. intros. by_key. Qed.

Lemma num_eqb_refl x : is_nan x = false -> Num.eqb x x = true.
Proof. intros. by_key. Qed.

Lemma num_leb_antisym x y : Num.leb x y = true -> Num.leb y x = true -> Num.eqb x y = true.
Proof. intros. by_key. Qed.

Lemma num_ltb_leb_false x y : Num.ltb x y = true -> Num.leb y x = false.
Proof.
  intros H. apply not_true_iff_false. intros H'. by_key.
Qed.

(** [of_Z] never yields NaN *)

Lemma iter_pos_shr_nonneg p : forall mrs,
  0 <= shr_m mrs -> 0 <= shr_m (SpecFloat.iter_pos shr_1 p mrs).
Proof.
  assert (H1 : forall mrs, 0 <= shr_m mrs -> 0 <= shr_m (shr_1 mrs)).
  { intros [[|[q|q|]|q] r s]; simpl; lia. }
  induction p as [p IH|p IH|]; intros mrs H; simpl; auto.
Qed.

Lemma shr_fexp_nonneg m e l :
  0 <= m -> 0 <= shr_m (fst (shr_fexp prec emax m e l)).
Proof.
  intros Hm. unfold shr_fexp, shr.
  assert (H0 : 0 <= shr_m (shr_record_of_loc m l)) by (destruct l as [|[]]; exact Hm).
  destruct (fexp prec emax (Zdigits2 m + e) - e); simpl; auto using iter_pos_shr_nonneg.
Qed.

Lemma binary_round_aux_not_nan sx mx ex lx :
  0 <= mx -> is_nan (binary_round_aux prec emax sx mx ex lx) = false.
Proof.
  intros Hm. unfold binary_round_aux.
  pose proof (shr_fexp_nonneg mx ex lx Hm) as H1.
  destruct (shr_fexp prec emax mx ex lx) as [mrs' e']. simpl in H1.
  assert (H2 : 0 <= round_nearest_even (shr_m mrs') (loc_of_shr_record mrs')).
  { unfold round_nearest_even. destruct (loc_of_shr_record mrs') as [|[]];
      try destruct (Z.even _); lia. }
  pose proof (shr_fexp_nonneg _ e' loc_Exact H2) as H3.
  destruct (shr_fexp prec emax _ e' loc_Exact) as [mrs'' e'']. simpl in H3.
  destruct (shr_m mrs''); try lia; [reflexivity|].
  destruct (_ <=? _); reflexivity.
Qed.

Lemma of_Z_not_nan z : is_nan (of_Z z) = false.
Proof.
  unfold of_Z, binary_normalize, binary_round.
  destruct z as [|m|m]; [reflexivity|..];
    destruct (shl_align _ _ _); apply binary_round_aux_not_nan; lia.
Qed.

Lemma digits_value_total s : forall acc,
  all_in digit s = true -> exists n, digits_value acc s = Some n.
Proof.
  induction s as [|c s IH]; intros acc Hs; simpl; [eauto|].
  simpl in Hs. apply andb_true_iff in Hs as [Hc Hs].
  unfold digit, in_range in Hc. unfold digit_of. rewrite Hc. apply IH, Hs.
Qed.

Lemma Number_digits_not_nan s : all_in digit s = true -> is_nan (Number s) = false.
Proof.
  unfold Number. intros Hs.
  destruct (digits_value_total s 0%N Hs) as [n ->]. apply of_Z_not_nan.
Qed.


(** * Integers as numbers *)

Lemma digits2_pos_lower m : 2 ^ (Z.pos (digits2_pos m) - 1) <= Z.pos m.
Proof.
  induction m as [m IH|m IH|]; simpl; [..|done];
    rewrite Pos2Z.inj_succ;
    replace (Z.succ (Z.pos (digits2_pos m)) - 1) with (Z.succ (Z.pos (digits2_pos m) - 1)) by lia;
    rewrite Z.pow_succ_r by lia; lia.
Qed.

Lemma digits2_pos_bound m n : 0 <= n -> Z.pos m < 2 ^ n -> Z.pos (digits2_pos m) <= n.
Proof.
  intros Hn Hm. destruct (Z_le_gt_dec (Z.pos (digits2_pos m)) n) as [|Hgt]; [done|].
  pose proof (digits2_pos_lower m).
  assert (2 ^ n <= 2 ^ (Z.pos (digits2_pos m) - 1)) by (apply Z.pow_le_mono_r; lia).
  lia.
Qed.

Lemma iter_xO_spec m k :
  Z.pos (Pos.iter xO m k) = Z.pos m * 2 ^ Z.pos k /\
  digits2_pos (Pos.iter xO m k) = (digits2_pos m + k)%positive.
Proof.
  induction k as [|k [IH1 IH2]] using Pos.peano_ind.
  - simpl. split; lia.
  - rewrite Pos.iter_succ. simpl. rewrite IH2. split; [|lia].
    rewrite Pos2Z.inj_xO, IH1, Pos2Z.inj_succ, Z.pow_succ_r by lia. lia.
Qed.

Lemma binary_round_aux_exact m e :
  Z.pos (digits2_pos m) = 53 -> -1074 <= e <= 971 ->
  binary_round_aux 53 1024 false (Z.pos m) e loc_Exact = S754_finite false m e.
Proof.
  intros Hd He. unfold binary_round_aux, shr_fexp, fexp, emin. simpl Zdigits2.
  rewrite Hd.
  replace (Z.max (53 + e - 53) (3 - 1024 - 53) - e) with 0 by lia. simpl.
  rewrite Hd.
  replace (Z.max (53 + e - 53) (3 - 1024 - 53) - e) with 0 by lia. simpl.
  replace (e <=? 1024 - 53) with true by (symmetry; apply Z.leb_le; lia). reflexivity.
Qed.

Lemma of_Z_exact z : 0 <= z < 2 ^ 53 -> to_Z (of_Z z) = Some z.
Proof.
  intros [Hz0 Hz]. destruct z as [|m|m]; [reflexivity| |lia].
  unfold of_Z, binary_normalize, binary_round.
  pose proof (digits2_pos_bound m 53 ltac:(lia) Hz) as Hd.
  unfold fexp, emin, prec, emax.
  replace (Z.max (Z.pos (digits2_pos m) + 0 - 53) (3 - 1024 - 53))
    with (Z.pos (digits2_pos m) - 53) by lia.
  unfold shl_align.
  destruct (Z.pos (digits2_pos m) - 53 - 0) as [|k|k] eqn:Hk; [|lia|].
  - rewrite (binary_round_aux_exact m 0) by lia. simpl.
    f_equal. rewrite Z.pow_0_r. lia.
  - destruct (iter_xO_spec m k) as [Hv Hdig].
    rewrite (binary_round_aux_exact (Pos.iter xO m k)) by (rewrite ?Hdig; lia).
    assert (He : Z.pos (digits2_pos m) - 53 = - Z.pos k) by lia.
    rewrite He. simpl. rewrite Hv.
    change (Z.pos m * 2 ^ Z.pos k mod Z.pow_pos 2 k) with (Z.pos m * 2 ^ Z.pos k mod 2 ^ Z.pos k).
    rewrite Z.mod_mul by lia. simpl.
    change (Z.pow_pos 2 k) with (2 ^ Z.pos k). rewrite Z.div_mul by lia. reflexivity.
Qed.

Lemma Number_exact s n :
  digits_value 0 s = Some n -> (n < 2 ^ 53)%N -> to_Z (Number s) = Some (Z.of_N n).
Proof.
  intros Hs Hn. unfold Number. rewrite Hs. apply of_Z_exact.
  split; [lia|]. change (2 ^ 53) with (Z.of_N (2 ^ 53)). lia.
Qed.




(** * Math.min *)

Lemma Math_min_from_nan lowest l :
  (exists x, x ∈ l /\ is_nan x = true) -> Math_min_from lowest l = NaN.
Proof.
  revert lowest. induction l as [|y l IH]; intros lowest (x & Hx & Hnan).
  - by apply elem_of_nil in Hx.
  - destruct y as [sy|sy| |sy my ey] eqn:Hy; [| |reflexivity|];
      (apply elem_of_cons in Hx as [->|Hx]; [discriminate|]);
      simpl; repeat case_match; eauto.
Qed.

Lemma Math_min_from_spec l : forall lowest,
  is_nan lowest = false -> (forall x, x ∈ l -> is_nan x = false) ->
  (Math_min_from lowest l = lowest \/ Math_min_from lowest l ∈ l) /\
  Num.leb (Math_min_from lowest l) lowest = true /\
  (forall x, x ∈ l -> Num.leb (Math_min_from lowest l) x = true).
Proof.
  induction l as [|y l IH]; intros lowest Hlow Hl.
  - simpl. split_and!; [by left|by apply num_leb_refl|]. by intros x ?%elem_of_nil.
  - assert (Hy : is_nan y = false) by (apply Hl; by left).
    assert (Hl' : forall x, x ∈ l -> is_nan x = false) by (intros; apply Hl; by right).
    assert (Hstep : exists low', Math_min_from lowest (y :: l) = Math_min_from low' l /\
              (low' = lowest \/ low' = y) /\ is_nan low' = false /\
              Num.leb low' lowest = true /\ Num.leb low' y = true).
    { destruct (Num.ltb y lowest) eqn:Hlt.
      - exists y. split_and!; auto using num_ltb_leb, num_leb_refl.
        destruct y as [[]|[]| |[]], lowest as [[]|[]| |[]]; try discriminate;
          simpl; rewrite ?Hlt; reflexivity.
      - destruct y as [[]|[]| |[]] eqn:Ey, lowest as [[]|[]| |[]] eqn:El; try discriminate.
        all: try (exists lowest; subst lowest; simpl; rewrite ?Hlt;
                  split_and!; auto using num_leb_refl, num_not_ltb_leb; fail).
        exists y. subst y. split_and!; auto. }
    destruct Hstep as (low' & -> & Hor & Hn & Hle1 & Hle2).
    destruct (IH low' Hn Hl') as (Hin & Hle & Hall). split_and!.
    + destruct Hin as [Heq|Hin].
      * rewrite Heq. destruct Hor as [->| ->]; [by left|right; by left].
      * right. by right.
    + eauto using num_leb_trans.
    + intros x [->|Hx]%elem_of_cons; eauto using num_leb_trans.
Qed.

Lemma Math_min_nan l : (exists x, x ∈ l /\ is_nan x = true) -> Math_min l = NaN.
Proof. apply Math_min_from_nan. Qed.

Lemma Math_min_least l x :
  (forall y, y ∈ l -> is_nan y = false) -> x ∈ l -> Num.leb (Math_min l) x = true.
Proof.
  intros Hl Hx. by apply (Math_min_from_spec l Infinity).
Qed.

Lemma Math_min_attained l :
  l <> [] -> (forall y, y ∈ l -> is_nan y = false) ->
  exists x, x ∈ l /\ Num.eqb x (Math_min l) = true.
Proof.
  intros Hne Hl.
  destruct (Math_min_from_spec l Infinity eq_refl Hl) as ([Heq|Hin] & _ & Hall).
  - destruct l as [|x l]; [done|]. exists x. split; [by left|].
    assert (Hx : Num.leb (Math_min (x :: l)) x = true) by (apply Hall; by left).
    unfold Math_min in *. rewrite Heq in *.
    assert (is_nan x = false) by (apply Hl; by left).
    destruct x as [[]|[]| |[]]; try discriminate; reflexivity.
  - exists (Math_min l). split; [exact Hin|]. apply num_eqb_refl, Hl, Hin.
Qed.




(** * groupBy *)


Lemma group_push_keys o gs k :
  k ∈ (group_push o gs).*1 <-> k ∈ gs.*1 \/ k = impl o.
Proof.
  induction gs as [|[k' vs] gs IH]; simpl.
  - rewrite list_elem_of_singleton, elem_of_nil. tauto.
  - destruct (String.eqb_spec k' (impl o)) as [->|Hne]; simpl.
    + rewrite !elem_of_cons. intuition congruence.
    + rewrite !elem_of_cons, IH. tauto.
Qed.

Lemma group_push_NoDup o gs : NoDup gs.*1 -> NoDup (group_push o gs).*1.
Proof.
  induction gs as [|[k' vs] gs IH]; simpl.
  - intros _. apply NoDup_singleton.
  - intros [Hk Hnd]%NoDup_cons.
    destruct (String.eqb_spec k' (impl o)) as [->|Hne]; simpl.
    + by apply NoDup_cons.
    + apply NoDup_cons. split; [|by apply IH].
      rewrite group_push_keys. intros [?|?]; done.
Qed.

Lemma group_push_elem o gs k vs :
  NoDup gs.*1 -> (k, vs) ∈ group_push o gs ->
  (k <> impl o /\ (k, vs) ∈ gs) \/
  (k = impl o /\ exists vs0, (k, vs0) ∈ gs /\ vs = vs0 ++ [o]) \/
  (k = impl o /\ (k ∉ gs.*1) /\ vs = [o]).
Proof.
  induction gs as [|[k' vs'] gs IH]; simpl.
  - intros _ [= -> ->]%list_elem_of_singleton. right; right.
    split_and!; [done|apply not_elem_of_nil|done].
  - intros [Hk Hnd]%NoDup_cons.
    destruct (String.eqb_spec k' (impl o)) as [->|Hne].
    + intros [[= -> ->]|Hin]%elem_of_cons.
      * right; left. split; [done|]. exists vs'. split; [by left|done].
      * left. split; [|by right].
        intros ->. apply Hk. apply list_elem_of_fmap. by exists (impl o, vs).
    + intros [[= -> ->]|Hin]%elem_of_cons.
      * left. split; [done|by left].
      * destruct (IH Hnd Hin) as [[? ?]|[(? & vs0 & ? & ?)|(? & ? & ?)]].
        -- left. split; [done|by right].
        -- right; left. split; [done|]. exists vs0. split; [by right|done].
        -- right; right. split_and!; [done| |done].
           subst k. rewrite elem_of_cons. intros [?|?]; done.
Qed.

Lemma of_impl_snoc i l o :
  of_impl i (l ++ [o]) = of_impl i l ++ (if decide (impl o = i) then [o] else []).
Proof.
  unfold of_impl. by rewrite filter_app.
Qed.

Lemma grouped_push gs l o : grouped gs l -> grouped (group_push o gs) (l ++ [o]).
Proof.
  intros (Hnd & Hgs & Hkeys). split_and!.
  - by apply group_push_NoDup.
  - intros k vs Hin. rewrite of_impl_snoc.
    destruct (group_push_elem _ _ _ _ Hnd Hin)
      as [[Hne Hin']|[(-> & vs0 & Hin' & ->)|(-> & Hnew & ->)]].
    + destruct (Hgs _ _ Hin') as [-> Hvs]. rewrite decide_False by done.
      by rewrite app_nil_r.
    + destruct (Hgs _ _ Hin') as [-> Hvs]. rewrite decide_True by done.
      split; [done|]. by destruct (of_impl (impl o) l).
    + rewrite decide_True by done. split; [|done].
      assert (of_impl (impl o) l = []) as ->; [|done].
      apply elem_of_nil_inv. intros o' [Heq Ho']%list_elem_of_filter.
      apply Hnew. rewrite <- Heq. by apply Hkeys.
  - intros o' [Ho'| ->%list_elem_of_singleton]%elem_of_app; apply group_push_keys; auto.
Qed.

Lemma groupBy_impl_grouped l : grouped (groupBy_impl l) l.
Proof.
  unfold groupBy_impl.
  assert (H : forall l0 gs, grouped gs l0 -> grouped (fold_left (fun gs o => group_push o gs) l gs) (l0 ++ l)).
  { induction l as [|o l IH]; intros l0 gs Hg; simpl.
    - by rewrite app_nil_r.
    - replace (l0 ++ o :: l) with ((l0 ++ [o]) ++ l) by (by rewrite <- app_assoc).
      apply IH. by apply grouped_push. }
  apply (H [] []). split_and!; [constructor|by intros ?? ?%elem_of_nil|by intros ? ?%elem_of_nil].
Qed.

(** * minBy *)

Lemma minBy_cycles_spec l :
  match minBy_cycles l with
  | Some b => least_of b l
  | None => forall o, o ∈ l -> is_nan (cycles o) = true
  end.
Proof.
  unfold minBy_cycles.
  assert (H : forall p st,
    match st with
    | Some b => least_of b p
    | None => forall o, o ∈ p -> is_nan (cycles o) = true
    end ->
    match fold_left minBy_step l st with
    | Some b => least_of b (p ++ l)
    | None => forall o, o ∈ p ++ l -> is_nan (cycles o) = true
    end).
  { induction l as [|o l IH]; intros p st Hst; simpl.
    - by rewrite app_nil_r.
    - replace (p ++ o :: l) with ((p ++ [o]) ++ l) by (by rewrite <- app_assoc).
      apply IH.
      destruct st as [b|]; simpl.
      + destruct Hst as (Hb & Hnb & Hleast).
        destruct (Num.ltb (cycles o) (cycles b)) eqn:Hlt.
        * destruct (num_ltb_not_nan _ _ Hlt) as [Hno _]. split_and!; [rewrite elem_of_app, list_elem_of_singleton; tauto|done|].
          intros o' [Ho'| ->%list_elem_of_singleton]%elem_of_app Hn'.
          -- eapply num_leb_trans; [by apply num_ltb_leb|by apply Hleast].
          -- by apply num_leb_refl.
        * split_and!; [rewrite elem_of_app, list_elem_of_singleton; tauto|done|].
          intros o' [Ho'| ->%list_elem_of_singleton]%elem_of_app Hn'.
          -- by apply Hleast.
          -- by apply num_not_ltb_leb.
      + destruct (is_nan (cycles o)) eqn:Hn.
        * intros o' [Ho'| ->%list_elem_of_singleton]%elem_of_app; auto.
        * split_and!; [rewrite elem_of_app, list_elem_of_singleton; tauto|done|].
          intros o' [Ho'| ->%list_elem_of_singleton]%elem_of_app Hn'.
          -- rewrite Hst in Hn' by done. discriminate.
          -- by apply num_leb_refl. }
  apply (H [] None). by intros ? ?%elem_of_nil.
Qed.

Lemma minBy_cycles_nil : minBy_cycles [] = None.
Proof. reflexivity. Qed.

Lemma minBy_cycles_is_Some l :
  l <> [] -> (forall o, o ∈ l -> is_nan (cycles o) = false) -> is_Some (minBy_cycles l).
Proof.
  intros Hne Hl. pose proof (minBy_cycles_spec l) as H.
  destruct (minBy_cycles l) as [b|]; [eauto|].
  destruct l as [|o l]; [done|].
  assert (Ho : o ∈ o :: l) by (by left).
  specialize (H o Ho). by rewrite (Hl o Ho) in H.
Qed.




(** * Lines and observations *)

Lemma datafile_parse text :
  datafile text = omap parse_line (Str.split (ascii_of_nat 10) text).
Proof.
  unfold datafile. induction (Str.split _ text) as [|line ls IH]; [reflexivity|].
  simpl. unfold parse_line at 1.
  destruct (Str.includes "objsize" line); simpl; [exact IH|].
  destruct (exec DB_REG_OK line); simpl; [f_equal|]; exact IH.
Qed.

Lemma observe_groups_of l :
  observe (groups_of l) =
  {| impl := l_impl l; cycles := Number (l_cycles l); machine := l_host l |}.
Proof.
  destruct (groups_of_lookup l) as (Hi & Hc & Hh).
  unfold observe, group_of. by rewrite Hi, Hc, Hh.
Qed.

Lemma exec_DB_REG_OK_Some line g :
  exec DB_REG_OK line = Some g ->
  exists l, holds_record line l /\ g = groups_of l.
Proof.
  intros (pre & mid & post & -> & (l & Hwf & -> & ->)%sem_DB_REG_OK_fields)%exec_sound.
  exists l. split; [|done]. split; [done|]. by exists pre, post.
Qed.

Lemma exec_DB_REG_OK_holds line l :
  holds_record line l -> is_Some (exec DB_REG_OK line).
Proof.
  intros (Hwf & pre & post & ->).
  destruct (exec_complete DB_REG_OK (pre +:+ text_of l +:+ post) (groups_of l)) as [g Hg].
  - exists pre, (text_of l), post. split; [done|]. by apply sem_DB_REG_OK_text.
  - by exists g.
Qed.

Lemma parse_line_Some line o :
  parse_line line = Some o ->
  Str.includes "objsize" line = false /\
  exists l, holds_record line l /\
    impl o = l_impl l /\ machine o = l_host l /\ cycles o = Number (l_cycles l).
Proof.
  unfold parse_line. destruct (Str.includes "objsize" line); [discriminate|].
  destruct (exec DB_REG_OK line) as [g|] eqn:Hg; [|discriminate].
  intros [= <-]. split; [done|].
  apply exec_DB_REG_OK_Some in Hg as (l & Hl & ->).
  exists l. split; [done|]. by rewrite observe_groups_of.
Qed.

Lemma datafile_elem text o :
  o ∈ datafile text <->
  exists line, line ∈ Str.split (ascii_of_nat 10) text /\ parse_line line = Some o.
Proof. rewrite datafile_parse. apply list_elem_of_omap. Qed.

Lemma datafile_not_nan text o : o ∈ datafile text -> is_nan (cycles o) = false.
Proof.
  intros (line & _ & (_ & l & (Hwf & _) & _ & _ & ->)%parse_line_Some)%datafile_elem.
  apply Number_digits_not_nan. apply Hwf.
Qed.

(** * One file *)

Lemma set_lookup acc i m v : set acc i m v !! i = set_row i m v (acc !! i).
Proof.
  unfold set, set_row. destruct (reserved i); [done|].
  destruct (reserved m); by rewrite lookup_insert_eq.
Qed.

Lemma set_lookup_ne acc i j m v : i <> j -> set acc i m v !! j = acc !! j.
Proof.
  intros Hij. unfold set. destruct (reserved i); [done|].
  destruct (reserved m); by rewrite lookup_insert_ne.
Qed.

Lemma set_row_entry i m v cur bm h x :
  set_row i m v cur = Some bm -> bm !! h = Some x ->
  (exists bm0, cur = Some bm0 /\ bm0 !! h = Some x) \/ (m = h /\ v = x).
Proof.
  unfold set_row. destruct (reserved i); [intros -> Hx; left; eauto|].
  destruct (reserved m); intros [= <-] Hx.
  - destruct cur as [bm0|]; simpl in Hx; [left; eauto|by rewrite lookup_empty in Hx].
  - destruct (decide (m = h)) as [->|Hne].
    + rewrite lookup_insert_eq in Hx. right. split; congruence.
    + rewrite lookup_insert_ne in Hx by done.
      destruct cur as [bm0|]; simpl in Hx; [left; eauto|by rewrite lookup_empty in Hx].
Qed.

Lemma set_row_keeps i m v cur : is_Some cur -> is_Some (set_row i m v cur).
Proof. unfold set_row. destruct (reserved i), (reserved m); eauto. Qed.

Lemma foldR_add_group gs : forall acc acc',
  NoDup gs.*1 -> foldR add_group gs acc = Ok acc' ->
  forall i,
    (i ∉ gs.*1 -> acc' !! i = acc !! i) /\
    (forall vs, (i, vs) ∈ gs ->
       exists o, minBy_cycles vs = Some o /\
         acc' !! i = set_row i (machine o) (cycles o) (acc !! i)).
Proof.
  induction gs as [|[k vs] gs IH]; intros acc acc' Hnd; simpl.
  - intros [= <-] i. split; [done|]. by intros vs ?%elem_of_nil.
  - apply NoDup_cons in Hnd as [Hk Hnd].
    unfold add_group at 1. simpl.
    destruct (minBy_cycles vs) as [o|] eqn:Hmin; simpl; [|discriminate].
    intros Hfold i. destruct (IH _ _ Hnd Hfold i) as [Hout Hin]. split.
    + intros Hi. rewrite Hout by (intros ?; apply Hi; by right).
      apply set_lookup_ne. intros ->. apply Hi. by left.
    + intros vs' [[= -> ->]|Hvs]%elem_of_cons.
      * exists o. split; [done|]. rewrite Hout by done. apply set_lookup.
      * destruct (Hin _ Hvs) as (o' & Hmin' & ->). exists o'. split; [done|].
        f_equal. apply set_lookup_ne.
        intros ->. apply Hk. apply list_elem_of_fmap. by exists (i, vs').
Qed.

Lemma add_host_lookup name text acc acc' i :
  add_host acc (name, Some text) = Ok acc' ->
  acc' !! i = host_step i text (acc !! i).
Proof.
  unfold add_host, host_step. simpl. intros Hfold.
  destruct (groupBy_impl_grouped (datafile text)) as (Hnd & Hgs & Hkeys).
  destruct (foldR_add_group _ _ _ Hnd Hfold i) as [Hout Hin].
  destruct (decide (i ∈ (groupBy_impl (datafile text)).*1)) as [Hi|Hi].
  - apply list_elem_of_fmap in Hi as ([k vs] & -> & Hvs). simpl in *.
    destruct (Hin _ Hvs) as (o & Hmin & ->).
    destruct (Hgs _ _ Hvs) as [<- _]. by rewrite Hmin.
  - rewrite Hout by done.
    assert (of_impl i (datafile text) = []) as ->; [|done].
    apply elem_of_nil_inv. intros o [Heq Ho]%list_elem_of_filter.
    apply Hi. rewrite <- Heq. by apply Hkeys.
Qed.

Lemma foldR_add_group_total gs : forall acc,
  (forall k vs, (k, vs) ∈ gs -> is_Some (minBy_cycles vs)) ->
  exists acc', foldR add_group gs acc = Ok acc'.
Proof.
  induction gs as [|[k vs] gs IH]; intros acc Hgs; simpl; [eauto|].
  unfold add_group at 1. simpl.
  destruct (Hgs k vs) as [o ->]; [by left|]. simpl.
  apply IH. intros ???. eapply Hgs. by right.
Qed.

Lemma add_host_total name text acc :
  exists acc', add_host acc (name, Some text) = Ok acc'.
Proof.
  unfold add_host. simpl. apply foldR_add_group_total.
  intros k vs Hvs.
  destruct (groupBy_impl_grouped (datafile text)) as (_ & Hgs & _).
  destruct (Hgs _ _ Hvs) as [-> Hne].
  apply minBy_cycles_is_Some; [done|].
  intros o [_ Ho]%list_elem_of_filter. by eapply datafile_not_nan.
Qed.

(** * All files *)

Lemma foldR_add_host_lookup files : forall acc m i,
  foldR add_host files acc = Ok m -> m !! i = row_after i files (acc !! i).
Proof.
  induction files as [|[name [text|]] files IH]; intros acc m i; simpl.
  - by intros [= <-].
  - destruct (add_host acc (name, Some text)) as [acc1|] eqn:H1; simpl; [|discriminate].
    intros Hm. rewrite (IH _ _ _ Hm). by rewrite (add_host_lookup _ _ _ _ i H1).
  - discriminate.
Qed.

Lemma foldR_add_host_Ok files : forall acc,
  Forall (fun e => is_Some e.2) files -> exists m, foldR add_host files acc = Ok m.
Proof.
  induction files as [|[name file] files IH]; intros acc Hall; simpl; [eauto|].
  apply Forall_cons in Hall as [[text Ht] Hall]. simpl in Ht. subst file.
  destruct (add_host_total name text acc) as [acc1 ->]. simpl. by apply IH.
Qed.

Lemma foldR_add_host_Throw files : forall acc e,
  foldR add_host files acc = Throw e ->
  exists pre name post, files = pre ++ (name, None) :: post /\
    Forall (fun e => is_Some e.2) pre /\ e = FsError (name +:+ "/data").
Proof.
  induction files as [|[name [text|]] files IH]; intros acc e; simpl; [discriminate|..].
  - destruct (add_host_total name text acc) as [acc1 ->]. simpl.
    intros (pre & name' & post & -> & Hpre & ->)%IH.
    exists ((name, Some text) :: pre), name', post. split_and!; [done| |done].
    apply Forall_cons. split; [by eexists|done].
  - intros [= <-]. exists [], name, files. split_and!; [done|constructor|done].
Qed.


(** * The matrix *)

Lemma own_host_onlyb_true cfg dir :
  own_host_onlyb cfg dir = true -> own_host_only cfg dir.
Proof.
  unfold own_host_onlyb, own_host_only. rewrite forallb_forall, Forall_forall.
  intros H e He%list_elem_of_In. specialize (H e He).
  destruct e.2 as [text|]; [|done].
  rewrite forallb_forall in H. apply Forall_forall.
  intros o Ho%list_elem_of_In. by apply String.eqb_eq, H.
Qed.

Lemma elem_of_List_filter {A} (f : A -> bool) l x :
  x ∈ List.filter f l <-> x ∈ l /\ f x = true.
Proof. rewrite !list_elem_of_In. apply filter_In. Qed.

Lemma NoDup_fst_filter {A B} (f : A * B -> bool) (l : list (A * B)) :
  NoDup l.*1 -> NoDup (List.filter f l).*1.
Proof.
  induction l as [|x l IH]; simpl; [done|].
  intros [Hx Hnd]%NoDup_cons. destruct (f x); simpl; [|by apply IH].
  apply NoDup_cons. split; [|by apply IH].
  intros ([a b] & Heq & [Hin _]%elem_of_List_filter)%list_elem_of_fmap.
  apply Hx. apply list_elem_of_fmap. by exists (a, b).
Qed.

Lemma NoDup_fst_agree {A B} (l : list (A * B)) k a b :
  NoDup l.*1 -> (k, a) ∈ l -> (k, b) ∈ l -> a = b.
Proof.
  induction l as [|[k' c] l IH]; simpl; [by intros _ ?%elem_of_nil|].
  intros [Hk Hnd]%NoDup_cons Ha Hb.
  assert (Hfresh : forall x, (k', x) ∉ l).
  { intros x Hx. apply Hk, list_elem_of_fmap. by exists (k', x). }
  apply elem_of_cons in Ha as [Ha|Ha], Hb as [Hb|Hb].
  - congruence.
  - injection Ha as -> ->. by apply Hfresh in Hb.
  - injection Hb as -> ->. by apply Hfresh in Ha.
  - by apply IH.
Qed.

Lemma foldR_add_host_readable files : forall acc m,
  foldR add_host files acc = Ok m -> Forall (fun e => is_Some e.2) files.
Proof.
  induction files as [|[name [text|]] files IH]; intros acc m; simpl; [constructor|..].
  - destruct (add_host acc (name, Some text)) as [acc1|]; simpl; [|discriminate].
    intros Hm. constructor; [by eexists|by eapply IH].
  - discriminate.
Qed.

Lemma observations_elem cfg dir o :
  o ∈ observations cfg dir <->
  exists name text, (name, Some text) ∈ dir /\ name ∈ machineOrder cfg /\ o ∈ datafile text.
Proof.
  unfold observations. rewrite list_elem_of_In, in_concat. split.
  - intros (l & ([name [text|]] & <- & [Hin Hal]%list_elem_of_In%elem_of_List_filter)%in_map_iff
              & Ho%list_elem_of_In);
      simpl in *; [|by apply elem_of_nil in Ho].
    exists name, text. split_and!; [done| |done].
    unfold allowed in Hal. by apply bool_decide_eq_true in Hal.
  - intros (name & text & Hin & Hal & Ho). exists (datafile text).
    split; [|by apply list_elem_of_In].
    apply in_map_iff. exists (name, Some text). split; [done|].
    apply list_elem_of_In, elem_of_List_filter. split; [done|].
    unfold allowed. by apply bool_decide_eq_true.
Qed.

Lemma row_after_origin i h v files : forall cur bm,
  row_after i files cur = Some bm -> bm !! h = Some v ->
  (exists bm0, cur = Some bm0 /\ bm0 !! h = Some v) \/
  (exists name text o, (name, Some text) ∈ files /\
     minBy_cycles (of_impl i (datafile text)) = Some o /\ machine o = h /\ cycles o = v).
Proof.
  induction files as [|[name [text|]] files IH]; intros cur bm; simpl.
  - intros -> Hv. left. eauto.
  - intros Hrow Hv. destruct (IH _ _ Hrow Hv) as [(bm0 & Hstep & Hv0)|(n & t & o & Hin & ?)].
    + unfold host_step in Hstep.
      destruct (minBy_cycles (of_impl i (datafile text))) as [o|] eqn:Hmin.
      * destruct (set_row_entry _ _ _ _ _ _ _ Hstep Hv0) as [?|[Hh Hc]]; [by left|].
        right. exists name, text, o. split_and!; [by left|done..].
      * left. eauto.
    + right. exists n, t, o. split; [by right|done].
  - intros -> Hv. left. eauto.
Qed.

Lemma data_entry_origin cfg dir m i h v :
  data cfg dir = Ok m -> m !! i ≫= (.!! h) = Some v ->
  exists name text o, (name, Some text) ∈ List.filter (allowed cfg) dir /\
    least_of o (of_impl i (datafile text)) /\ machine o = h /\ cycles o = v.
Proof.
  unfold data. intros Hm Hv.
  rewrite (foldR_add_host_lookup _ _ _ i Hm), lookup_empty in Hv.
  destruct (row_after i _ None) as [bm|] eqn:Hrow; simpl in Hv; [|discriminate].
  destruct (row_after_origin _ _ _ _ _ _ Hrow Hv)
    as [(bm0 & [=] & _)|(name & text & o & Hin & Hmin & Hh & Hc)].
  exists name, text, o. split_and!; try done.
  pose proof (minBy_cycles_spec (of_impl i (datafile text))) as Hspec.
  by rewrite Hmin in Hspec.
Qed.

(** C1 (amended).  Every value stored in the Aggregate Matrix under a key
    (implementation, host) is the cycle count of a parsed Observation with
    that key, so the matrix holds no key that no Observation has.  When
    the listing names each directory once and every parsed line of a file
    carries the name of its own directory as host, the stored value is the
    minimum cycle count among all parsed Observations with that key. *)
Theorem matrix_holds_fastest cfg dir m i h v :
  data cfg dir = Ok m ->
  m !! i ≫= (.!! h) = Some v ->
  (exists o, o ∈ observations cfg dir /\ impl o = i /\ machine o = h /\ cycles o = v) /\
  (NoDup dir.*1 -> own_host_only cfg dir ->
   forall o, o ∈ observations cfg dir -> impl o = i -> machine o = h ->
     Num.leb v (cycles o) = true).
Proof.
  intros Hm Hv.
  destruct (data_entry_origin _ _ _ _ _ _ Hm Hv)
    as (name & text & b & Hin & (Hb & Hnb & Hleast) & Hh & Hc).
  apply list_elem_of_filter in Hb as [Hbi Hb].
  pose proof Hin as [Hdir Hal]%elem_of_List_filter.
  assert (Hname : name ∈ machineOrder cfg)
    by (unfold allowed in Hal; by apply bool_decide_eq_true in Hal).
  split.
  - exists b. split_and!; try done. apply observations_elem. eauto.
  - intros Hnd Hown o (name' & text' & Hdir' & Hname' & Ho)%observations_elem Hi Hmach.
    assert (Hin' : (name', Some text') ∈ List.filter (allowed cfg) dir).
    { apply elem_of_List_filter. split; [done|].
      unfold allowed. by apply bool_decide_eq_true. }
    unfold own_host_only in Hown. rewrite Forall_forall in Hown.
    pose proof (Hown _ Hin) as H1. pose proof (Hown _ Hin') as H2. simpl in *.
    rewrite Forall_forall in H1, H2.
    assert (name' = name) as -> by (rewrite <- (H1 _ Hb), <- (H2 _ Ho); congruence).
    assert (Some text' = Some text) as [= ->] by (eapply NoDup_fst_agree; eauto).
    rewrite <- Hc. apply Hleast; [|by eapply datafile_not_nan].
    by apply list_elem_of_filter.
Qed.




Lemma host_step_keeps i text cur : is_Some cur -> is_Some (host_step i text cur).
Proof. unfold host_step. destruct (minBy_cycles _); [apply set_row_keeps|done]. Qed.

Lemma row_after_keeps i files : forall cur,
  is_Some cur -> is_Some (row_after i files cur).
Proof.
  induction files as [|[name [text|]] files IH]; intros cur Hcur; simpl; auto.
  by apply IH, host_step_keeps.
Qed.

Lemma host_step_records text o cur :
  reserved (impl o) = false ->
  o ∈ datafile text -> is_Some (host_step (impl o) text cur).
Proof.
  intros Hres Ho. unfold host_step.
  destruct (minBy_cycles_is_Some (of_impl (impl o) (datafile text))) as [b ->].
  - intros Hnil. assert (Hin : o ∈ of_impl (impl o) (datafile text))
      by (by apply list_elem_of_filter).
    rewrite Hnil in Hin. by apply elem_of_nil in Hin.
  - intros o' [_ Ho']%list_elem_of_filter. by eapply datafile_not_nan.
  - unfold set_row. rewrite Hres. destruct (reserved (machine b)); eauto.
Qed.

Lemma row_after_records name text o files : forall cur,
  reserved (impl o) = false ->
  (name, Some text) ∈ files -> Forall (fun e => is_Some e.2) files ->
  o ∈ datafile text -> is_Some (row_after (impl o) files cur).
Proof.
  induction files as [|[n [t|]] files IH]; intros cur Hres Hin Hall Ho; simpl.
  - by apply elem_of_nil in Hin.
  - apply Forall_cons in Hall as [_ Hall].
    apply elem_of_cons in Hin as [[= <- <-]|Hin].
    + by apply row_after_keeps, host_step_records.
    + by apply IH.
  - apply Forall_cons in Hall as [[? [=]] _].
Qed.

Lemma data_records cfg dir m o :
  reserved (impl o) = false ->
  data cfg dir = Ok m -> o ∈ observations cfg dir -> is_Some (m !! impl o).
Proof.
  unfold data. intros Hres Hm (name & text & Hdir & Hname & Ho)%observations_elem.
  rewrite (foldR_add_host_lookup _ _ _ (impl o) Hm).
  eapply row_after_records; [done| |by eapply foldR_add_host_readable|done].
  apply elem_of_List_filter. split; [done|].
  unfold allowed. by apply bool_decide_eq_true.
Qed.




(** * The result monad *)

Lemma mapR_Ok {A B} (f : A -> result B) l bs :
  mapR f l = Ok bs <-> Forall2 (fun a b => f a = Ok b) l bs.
Proof.
  revert bs. induction l as [|a l IH]; intros bs; simpl.
  - split; [intros [= <-]; constructor|by intros ->%Forall2_nil_inv_l].
  - destruct (f a) as [b|e] eqn:Hfa; simpl.
    + destruct (mapR f l) as [bs'|e] eqn:Hl; simpl.
      * split.
        -- intros [= <-]. constructor; [done|by apply IH].
        -- intros (b' & bs'' & Hb & Hbs & ->)%Forall2_cons_inv_l.
           apply IH in Hbs. congruence.
      * split; [discriminate|].
        intros (b' & bs'' & Hb & Hbs & ->)%Forall2_cons_inv_l.
        apply IH in Hbs. discriminate.
    + split; [discriminate|].
      intros (b' & bs'' & Hb & Hbs & ->)%Forall2_cons_inv_l. congruence.
Qed.

Lemma mapR_Throw {A B} (f : A -> result B) l a :
  a ∈ l -> (exists e, f a = Throw e) -> exists e, mapR f l = Throw e.
Proof.
  intros Ha [e He]. induction l as [|x l IH]; [by apply elem_of_nil in Ha|].
  simpl. apply elem_of_cons in Ha as [<-|Ha].
  - rewrite He. simpl. eauto.
  - destruct (f x); simpl; [|eauto].
    destruct (IH Ha) as [e' ->]. simpl. eauto.
Qed.

Lemma mapR_total {A B} (f : A -> result B) l :
  (forall a, a ∈ l -> exists b, f a = Ok b) -> exists bs, mapR f l = Ok bs.
Proof.
  induction l as [|x l IH]; intros Hl; simpl; [eauto|].
  destruct (Hl x) as [b ->]; [by left|]. simpl.
  destruct IH as [bs ->]; [intros; apply Hl; by right|]. simpl. eauto.
Qed.

Lemma mapR_ext {A B} (f g : A -> result B) l :
  (forall a, a ∈ l -> f a = g a) -> mapR f l = mapR g l.
Proof.
  induction l as [|x l IH]; intros Hl; simpl; [done|].
  rewrite (Hl x) by (by left). rewrite IH; [done|]. intros; apply Hl; by right.
Qed.

(** * The rows of a Section *)

Section Rows.

Variable eng : Engine.
Variable cfg : Config.
Variable data : matrix.

Lemma lookup_impl_Ok ii o :
  lookup_impl cfg data ii = Ok o ->
  is_Some (implMap cfg !! ii) /\
  match o with
  | Some r => iname r = ii /\ data !! ii = Some (byMachine r) /\
              row_field r = fieldToStr cfg ii /\
              Some (row_name r) = name <$> implMap cfg !! ii
  | None => data !! ii = None
  end.
Proof.
  unfold lookup_impl. destruct (implMap cfg !! ii) as [info|]; [|discriminate].
  intros [= <-]. split; [by eexists|]. by destruct (data !! ii).
Qed.

Lemma section_rows_spec implementations d :
  section_rows cfg data implementations = Ok d ->
  map iname d = present data implementations /\
  (forall ii, ii ∈ implementations -> is_Some (implMap cfg !! ii)) /\
  (forall r, r ∈ d -> data !! iname r = Some (byMachine r)).
Proof.
  unfold section_rows.
  destruct (mapR (lookup_impl cfg data) implementations) as [mapped|] eqn:Hm;
    simpl; [|discriminate].
  intros [= <-]. apply mapR_Ok in Hm.
  induction Hm as [|ii o impls mapped Hii _ IH]; simpl.
  - split_and!; [done|by intros ? ?%elem_of_nil|by intros ? ?%elem_of_nil].
  - destruct IH as (IH1 & IH2 & IH3).
    apply lookup_impl_Ok in Hii as [Hmap Ho].
    unfold present in *. rewrite filter_cons.
    destruct o as [r|]; simpl.
    + destruct Ho as (<- & Hd & _). rewrite decide_True by (by eexists).
      split_and!; [by f_equal| |].
      * intros ii [->|?]%elem_of_cons; auto.
      * intros r' [->|?]%elem_of_cons; auto.
    + rewrite decide_False by (rewrite Ho; by intros [? ?]).
      split_and!; [done| |done].
      intros ii' [->|?]%elem_of_cons; auto.
Qed.

Lemma section_rows_total implementations :
  (forall ii, ii ∈ implementations -> is_Some (implMap cfg !! ii)) ->
  exists d, section_rows cfg data implementations = Ok d.
Proof.
  intros Hall. unfold section_rows.
  destruct (mapR_total (lookup_impl cfg data) implementations) as [mapped ->]; [|simpl; eauto].
  intros ii [info Hii]%Hall. unfold lookup_impl. rewrite Hii. eauto.
Qed.

Lemma section_rows_Throw implementations ii :
  ii ∈ implementations -> implMap cfg !! ii = None ->
  exists e, section_rows cfg data implementations = Throw e.
Proof.
  intros Hin Hii. unfold section_rows.
  destruct (mapR_Throw (lookup_impl cfg data) implementations ii Hin) as [e ->]; [|simpl; eauto].
  unfold lookup_impl. rewrite Hii. eauto.
Qed.

Lemma section_rows_consistent implementations d r r' :
  section_rows cfg data implementations = Ok d ->
  r ∈ d -> r' ∈ d -> iname r = iname r' -> byMachine r = byMachine r'.
Proof.
  intros (_ & _ & Hd)%section_rows_spec Hr Hr' Heq.
  apply Hd in Hr, Hr'. congruence.
Qed.

(** * The two reduces *)

Lemma fold_insert_snoc {A V} (kf : A -> string) (vf : A -> V) l a
    (acc : gmap string V) :
  fold_left (fun acc r => <[kf r := vf r]> acc) (l ++ [a]) acc =
  <[kf a := vf a]> (fold_left (fun acc r => <[kf r := vf r]> acc) l acc).
Proof. by rewrite fold_left_app. Qed.

Lemma fold_insert_lookup {A V} (kf : A -> string) (vf : A -> V) l k :
  match fold_left (fun acc r => <[kf r := vf r]> acc) l (∅ : gmap string V) !! k with
  | Some x => exists r, r ∈ l /\ kf r = k /\ x = vf r
  | None => forall r, r ∈ l -> kf r <> k
  end.
Proof.
  induction l as [|a l IH] using rev_ind.
  - simpl. rewrite lookup_empty. by intros ? ?%elem_of_nil.
  - rewrite fold_insert_snoc. destruct (decide (kf a = k)) as [<-|Hne].
    + rewrite lookup_insert_eq. exists a. split; [|done].
      apply elem_of_app. right. by left.
    + rewrite lookup_insert_ne by done.
      destruct (fold_left _ l ∅ !! k) as [x|].
      * destruct IH as (r & Hr & Hk & Hx). exists r. split; [|done].
        apply elem_of_app. by left.
      * intros r [Hr| ->%list_elem_of_singleton]%elem_of_app; auto.
Qed.

Lemma smallestImplByMachine_lookup d machine :
  machine ∈ machineOrder cfg ->
  num_at (smallestImplByMachine cfg d) machine = Math_min (column d machine).
Proof.
  intros Hm. unfold num_at, smallestImplByMachine.
  pose proof (fold_insert_lookup (fun m : string => m)
                (fun m => Math_min (map (fun r => num_at (byMachine r) m) d))
                (machineOrder cfg) machine) as H.
  simpl in H. destruct (fold_left _ _ ∅ !! machine) as [x|].
  - by destruct H as (? & _ & -> & ->).
  - by destruct (H _ Hm).
Qed.

Lemma meanByImplementation_lookup implementations d r :
  section_rows cfg data implementations = Ok d -> r ∈ d ->
  num_at (meanByImplementation eng cfg d) (iname r) = geomean eng cfg (byMachine r).
Proof.
  intros Hd Hr. unfold num_at, meanByImplementation.
  pose proof (fold_insert_lookup iname (fun r => geomean eng cfg (byMachine r)) d (iname r)) as H.
  simpl in H. destruct (fold_left _ _ ∅ !! iname r) as [x|].
  - destruct H as (r' & Hr' & Hk & ->). simpl.
    by rewrite (section_rows_consistent _ _ _ _ Hd Hr' Hr Hk).
  - by destruct (H _ Hr).
Qed.

Lemma Object_values_elem (o : gmap string number) x :
  x ∈ Object_values o <-> exists k, o !! k = Some x.
Proof.
  unfold Object_values. rewrite list_elem_of_fmap. split.
  - intros ([k y] & -> & Hin%elem_of_map_to_list). eauto.
  - intros [k Hk]. exists (k, x). split; [done|]. by apply elem_of_map_to_list.
Qed.

Lemma mean_values_elem implementations d x :
  section_rows cfg data implementations = Ok d ->
  x ∈ Object_values (meanByImplementation eng cfg d) <-> x ∈ means eng cfg d.
Proof.
  intros Hd. rewrite Object_values_elem. unfold means.
  rewrite list_elem_of_In, in_map_iff. split.
  - intros [k Hk]. unfold meanByImplementation in Hk.
    pose proof (fold_insert_lookup iname (fun r => geomean eng cfg (byMachine r)) d k) as H.
    simpl in H. rewrite Hk in H. destruct H as (r & Hr & _ & ->).
    exists r. split; [done|]. by apply list_elem_of_In.
  - intros (r & <- & Hr%list_elem_of_In). exists (iname r).
    pose proof (meanByImplementation_lookup _ _ _ Hd Hr) as H.
    unfold num_at, meanByImplementation in *.
    pose proof (fold_insert_lookup iname (fun r => geomean eng cfg (byMachine r)) d (iname r)) as H'.
    simpl in H'. destruct (fold_left _ d ∅ !! iname r) as [y|]; simpl in *; [by f_equal|].
    by destruct (H' _ Hr).
Qed.

End Rows.




Lemma printCycles_unfold eng c small :
  printCycles eng c small =
  Str.padStart PAD_CYC
    (if Num.eqb c small then "\textbf{" +:+ cell_text eng c small +:+ "}"
     else cell_text eng c small).
Proof.
  unfold printCycles, cell_text.
  destruct (Num.eqb c small); rewrite ?sapp_assoc; reflexivity.
Qed.

Lemma column_elem d machine x :
  x ∈ column d machine <-> exists r, r ∈ d /\ x = num_at (byMachine r) machine.
Proof.
  unfold column. rewrite list_elem_of_In, in_map_iff.
  split; intros (r & ? & ?); exists r; rewrite ?list_elem_of_In in *; auto.
Qed.

Lemma means_elem eng cfg d x :
  x ∈ means eng cfg d <-> exists r, r ∈ d /\ x = geomean eng cfg (byMachine r).
Proof.
  unfold means. rewrite list_elem_of_In, in_map_iff.
  split; intros (r & ? & ?); exists r; rewrite ?list_elem_of_In in *; auto.
Qed.

Lemma eqb_NaN_r c : Num.eqb c NaN = false.
Proof. by destruct c. Qed.

(** C6 (amended).  In a Section every host cell is printed against
    [Math.min] of its column, and the summary cell against [Math.min] of
    the Section's means.  A cell is emphasized exactly when its value [==]
    that minimum, and its ratio annotation is [(value / minimum).toFixed(2)]
    followed by "x" (1100 against 1000 gives "1.10x").  When no value of
    the column is NaN, the minimum is below or equal to every value and at
    least one cell, each cell tied at the minimum, is emphasized; when a
    value is missing, the minimum is NaN and no cell of the column is
    emphasized. *)
Theorem smallest_is_emphasized eng cfg data implementations d :
  section_rows cfg data implementations = Ok d ->
  (forall r, r ∈ d ->
     host_cells eng cfg d r =
       map (fun m => printCycles eng (num_at (byMachine r) m) (Math_min (column d m)))
           (machineOrder cfg) /\
     mean_cell eng cfg d r =
       printCycles eng (geomean eng cfg (byMachine r)) (smallestMean eng cfg d)) /\
  (forall c small,
     printCycles eng c small =
       Str.padStart PAD_CYC
         (if Num.eqb c small then "\textbf{" +:+ cell_text eng c small +:+ "}"
          else cell_text eng c small)) /\
  (forall m, d <> [] -> (forall x, x ∈ column d m -> is_nan x = false) ->
     (forall r, r ∈ d -> Num.leb (Math_min (column d m)) (num_at (byMachine r) m) = true) /\
     (exists r, r ∈ d /\ Num.eqb (num_at (byMachine r) m) (Math_min (column d m)) = true)) /\
  (forall m, (exists x, x ∈ column d m /\ is_nan x = true) ->
     Math_min (column d m) = NaN /\
     forall r, Num.eqb (num_at (byMachine r) m) (Math_min (column d m)) = false) /\
  (d <> [] -> (forall x, x ∈ means eng cfg d -> is_nan x = false) ->
     (forall r, r ∈ d ->
        Num.leb (smallestMean eng cfg d) (geomean eng cfg (byMachine r)) = true) /\
     (exists r, r ∈ d /\
        Num.eqb (geomean eng cfg (byMachine r)) (smallestMean eng cfg d) = true)) /\
  ((exists x, x ∈ means eng cfg d /\ is_nan x = true) ->
     smallestMean eng cfg d = NaN /\
     forall r, Num.eqb (geomean eng cfg (byMachine r)) (smallestMean eng cfg d) = false) /\
  printCycles eng (Number "1100") (Number "1000") =
    Str.padStart PAD_CYC "1k {\tiny (1.10x)}".
Proof.
  intros Hd. split_and!.
  - intros r Hr. split.
    + unfold host_cells. apply map_ext_in. intros m Hm%list_elem_of_In.
      by rewrite smallestImplByMachine_lookup.
    + unfold mean_cell. by rewrite (meanByImplementation_lookup _ _ _ _ _ _ Hd Hr).
  - intros. apply printCycles_unfold.
  - intros m Hne Hcol. split.
    + intros r Hr. apply Math_min_least; [done|]. apply column_elem. eauto.
    + destruct (Math_min_attained (column d m)) as (x & (r & Hr & ->)%column_elem & Hx);
        [by destruct d|done|eauto].
  - intros m Hnan. pose proof (Math_min_nan _ Hnan) as ->. split; [done|].
    intros r. apply eqb_NaN_r.
  - intros Hne Hmeans.
    assert (Hvals : forall y, y ∈ Object_values (meanByImplementation eng cfg d) ->
                      is_nan y = false).
    { intros y Hy. apply Hmeans. by apply (mean_values_elem _ _ _ _ _ _ Hd). }
    split.
    + intros r Hr. apply Math_min_least; [done|].
      apply (mean_values_elem _ _ _ _ _ _ Hd), means_elem. eauto.
    + destruct (Math_min_attained (Object_values (meanByImplementation eng cfg d)))
        as (x & Hx & Heq); [|done|].
      * destruct d as [|r d']; [done|]. intros Hnil.
        assert (Hin : geomean eng cfg (byMachine r) ∈
                        Object_values (meanByImplementation eng cfg (r :: d'))).
        { apply (mean_values_elem _ _ _ _ _ _ Hd), means_elem. exists r. split; [by left|done]. }
        rewrite Hnil in Hin. by apply elem_of_nil in Hin.
      * apply (mean_values_elem _ _ _ _ _ _ Hd), means_elem in Hx as (r & Hr & ->). eauto.
  - intros (x & Hx & Hnan). unfold smallestMean.
    rewrite Math_min_nan; [split; [done|intros; apply eqb_NaN_r]|].
    exists x. split; [|done]. by apply (mean_values_elem _ _ _ _ _ _ Hd).
  - vm_compute. reflexivity.
Qed.

(** * A host without a value *)

Lemma mul_NaN_l x : Num.mul NaN x = NaN.
Proof. reflexivity. Qed.

Lemma mul_NaN_r x : Num.mul x NaN = NaN.
Proof. by destruct x. Qed.

Lemma product_NaN (bm : gmap string number) ms : forall a,
  a = NaN \/ (exists m, m ∈ ms /\ bm !! m = None) ->
  fold_left (fun a m => Num.mul a (num_at bm m)) ms a = NaN.
Proof.
  induction ms as [|m ms IH]; intros a; simpl.
  - intros [->|(m & []%elem_of_nil & _)]. reflexivity.
  - intros [->|(m' & [->|Hin]%elem_of_cons & Hm')]; apply IH.
    + left. apply mul_NaN_l.
    + left. unfold num_at. rewrite Hm'. apply mul_NaN_r.
    + right. eauto.
Qed.

Lemma geomean_missing eng (bm : gmap string number) :
  (exists m, m ∈ machineOrder supercop_config /\ bm !! m = None) ->
  geomean eng supercop_config bm = NaN.
Proof.
  intros Hm. unfold geomean. rewrite product_NaN by (by right). reflexivity.
Qed.

Lemma printCycles_NaN eng small :
  printCycles eng NaN small = Str.padStart PAD_CYC "NaNk {\tiny (NaNx)}".
Proof. reflexivity. Qed.

Lemma heading_of_supercop implementations :
  implementations ∈ implOrder supercop_config ->
  exists heading, heading_of supercop_config implementations = Ok heading.
Proof.
  intros [->|[->|[]%elem_of_nil]%elem_of_cons]%elem_of_cons; vm_compute; eauto.
Qed.

(** C3 (amended).  With the host ordering of the source, a rendered
    implementation that lacks a value for some host gets NaN as geometric
    mean: the product is NaN, nothing is substituted for the missing
    value, no exception is raised, and the Section is rendered, with
    "NaNk {\tiny (NaNx)}" in the summary cell of that row. *)
Theorem missing_host_gives_NaN eng data implementations d r :
  section_rows supercop_config data implementations = Ok d ->
  r ∈ d ->
  (exists m, m ∈ machineOrder supercop_config /\ byMachine r !! m = None) ->
  geomean eng supercop_config (byMachine r) = NaN /\
  num_at (meanByImplementation eng supercop_config d) (iname r) = NaN /\
  mean_cell eng supercop_config d r = Str.padStart PAD_CYC "NaNk {\tiny (NaNx)}" /\
  forall heading, heading_of supercop_config implementations = Ok heading ->
    render_section eng supercop_config data implementations =
      Ok (Str.join Str.nl
            ("\midrule" :: multirow implementations heading ::
             map (render_row eng supercop_config d) d)).
Proof.
  intros Hd Hr Hm. pose proof (geomean_missing eng _ Hm) as Hg. split_and!.
  - exact Hg.
  - by rewrite (meanByImplementation_lookup _ _ _ _ _ _ Hd Hr).
  - unfold mean_cell. rewrite (meanByImplementation_lookup _ _ _ _ _ _ Hd Hr), Hg.
    apply printCycles_NaN.
  - intros heading Hh. unfold render_section. rewrite Hh. simpl. by rewrite Hd.
Qed.

(** * A Section naming an unknown implementation *)

Lemma render_section_Throw eng cfg data implementations ii :
  ii ∈ implementations -> implMap cfg !! ii = None ->
  exists e, render_section eng cfg data implementations = Throw e.
Proof.
  intros Hin Hii. unfold render_section.
  destruct (heading_of cfg implementations); simpl; [|eauto].
  destruct (section_rows_Throw cfg data implementations ii Hin Hii) as [e ->].
  simpl. eauto.
Qed.

Lemma genBarTable_Throw eng cfg data implementations ii :
  implementations ∈ implOrder cfg -> ii ∈ implementations -> implMap cfg !! ii = None ->
  exists e, genBarTable eng cfg data = Throw e.
Proof.
  intros Hsec Hin Hii. unfold genBarTable.
  destruct (table_head cfg); simpl; [|eauto].
  destruct (mapR_Throw (render_section eng cfg data) (implOrder cfg) implementations Hsec)
    as [e ->]; [|simpl; eauto].
  by eapply render_section_Throw.
Qed.

Lemma has_property_false {A} (o : gmap string A) k :
  has_property o k = false -> o !! k = None /\ inherited k = false.
Proof.
  unfold has_property. intros [Hown Hinh]%orb_false_iff. split; [|done].
  apply bool_decide_eq_false in Hown. by apply eq_None_not_Some.
Qed.

(** C7 (amended).  If a Section names an identifier for which
    [ii in implMap] is false (it is no key of [implMap] and none of the
    names every object inherits from [Object.prototype]), the run ends
    with an exception; by then it has printed nothing, or only the fixed
    preamble [table_start], which is logged before [genBarTable] runs.
    Neither the tabular nor the footer is printed. *)
Theorem unknown_implementation_is_fatal eng cfg root implementations ii :
  implementations ∈ implOrder cfg -> ii ∈ implementations ->
  has_property (implMap cfg) ii = false ->
  exists e, main eng cfg root = ([], Some e) \/
            main eng cfg root = ([table_start CAPTION LABEL], Some e).
Proof.
  intros Hsec Hin [Hii _]%has_property_false. unfold main.
  destruct root as [dir|]; [|eauto].
  destruct (data cfg dir) as [m|e]; [|eauto].
  destruct (genBarTable_Throw eng cfg m _ _ Hsec Hin Hii) as [e ->]. eauto.
Qed.

(** * Implementations without an entry *)

Lemma section_rows_cons cfg data ii implementations :
  section_rows cfg data (ii :: implementations) =
  (o <-- lookup_impl cfg data ii ;;
   d <-- section_rows cfg data implementations ;;
   Ok (match o with Some r => r :: d | None => d end)).
Proof.
  unfold section_rows. simpl.
  destruct (lookup_impl cfg data ii) as [o|]; simpl; [|done].
  destruct (mapR (lookup_impl cfg data) implementations); simpl; [|done].
  by destruct o.
Qed.

Lemma section_rows_present cfg data implementations d :
  section_rows cfg data implementations = Ok d ->
  section_rows cfg data (present data implementations) = Ok d.
Proof.
  revert d. induction implementations as [|ii impls IH]; intros d; [done|].
  rewrite section_rows_cons. unfold present in *. rewrite filter_cons.
  destruct (lookup_impl cfg data ii) as [o|] eqn:Hii; simpl; [|discriminate].
  destruct (section_rows cfg data impls) as [d'|]; simpl; [|discriminate].
  intros [= <-]. apply lookup_impl_Ok in Hii as Ho. destruct Ho as [_ Ho].
  destruct o as [r|].
  - destruct Ho as (_ & Hd & _). rewrite decide_True by (by eexists).
    rewrite section_rows_cons, Hii. simpl. by rewrite (IH d').
  - rewrite decide_False by (rewrite Ho; by intros [? ?]). by apply IH.
Qed.

(** C8.  When the heading of a Section resolves and all its identifiers
    are in [implMap], the Section is rendered with one row per configured
    implementation that has an entry in the matrix, in configuration
    order; an implementation without an entry has no row, and the rows
    are those of the Section with such implementations deleted. *)
Theorem absent_implementations_have_no_row eng cfg data implementations heading :
  heading_of cfg implementations = Ok heading ->
  (forall ii, ii ∈ implementations -> is_Some (implMap cfg !! ii)) ->
  exists d,
    render_section eng cfg data implementations =
      Ok (Str.join Str.nl
            ("\midrule" :: multirow implementations heading ::
             map (render_row eng cfg d) d)) /\
    section_rows cfg data implementations = Ok d /\
    map iname d = present data implementations /\
    (forall ii, data !! ii = None -> ii ∉ map iname d) /\
    section_rows cfg data (present data implementations) = Ok d.
Proof.
  intros Hh Hall.
  destruct (section_rows_total cfg data implementations Hall) as [d Hd].
  exists d. pose proof (section_rows_spec _ _ _ _ Hd) as (Hnames & _ & _).
  split_and!.
  - unfold render_section. rewrite Hh. simpl. by rewrite Hd.
  - done.
  - done.
  - intros ii Hii. rewrite Hnames. unfold present.
    intros [[x Hx] _]%list_elem_of_filter. congruence.
  - by apply section_rows_present.
Qed.




(** C2 (amended).  A line that contains "objsize" yields no record.  Any
    other line yields a record exactly when a well-formed benchmark record,
    with status token "ok" or "unknown", occurs in it; the implementation
    and the host of the record are the matched substrings, and its cycle
    count is [Number] of the matched digits, which is the integer they
    denote whenever that is below 2^53. *)
Theorem parse_line_spec line :
  (Str.includes "objsize" line = true -> parse_line line = None) /\
  (forall o, parse_line line = Some o ->
     exists l n, holds_record line l /\
       (l_status l = "ok" \/ l_status l = "unknown") /\
       impl o = l_impl l /\ machine o = l_host l /\
       digits_value 0 (l_cycles l) = Some n /\ cycles o = Number (l_cycles l) /\
       ((n < 2 ^ 53)%N -> to_Z (cycles o) = Some (Z.of_N n))) /\
  (forall l, Str.includes "objsize" line = false -> holds_record line l ->
     exists o, parse_line line = Some o) /\
  (forall text, datafile text = omap parse_line (Str.split (ascii_of_nat 10) text)).
Proof.
  split_and!.
  - unfold parse_line. by intros ->.
  - intros o (_ & l & Hl & Hi & Hm & Hc)%parse_line_Some.
    pose proof Hl as [Hwf _].
    destruct (digits_value_total (l_cycles l) 0%N) as [n Hn]; [apply Hwf|].
    exists l, n. split_and!; try done; [apply Hwf|].
    intros Hlt. rewrite Hc. by apply Number_exact.
  - intros l Hobj Hl. unfold parse_line. rewrite Hobj.
    destruct (exec_DB_REG_OK_holds _ _ Hl) as [g ->]. simpl. eauto.
  - apply datafile_parse.
Qed.

(** C5 (amended).  Every Observation loaded from the file of an
    allow-listed directory is tagged with the host field of the log line
    it was parsed from; the name of the directory is not consulted. *)
Theorem observation_carries_line_host cfg dir o :
  o ∈ observations cfg dir ->
  exists name text line l,
    (name, Some text) ∈ dir /\ name ∈ machineOrder cfg /\
    line ∈ Str.split (ascii_of_nat 10) text /\
    Str.includes "objsize" line = false /\
    holds_record line l /\
    machine o = l_host l /\ impl o = l_impl l /\ cycles o = Number (l_cycles l).
Proof.
  intros (name & text & Hdir & Hname & (line & Hline & Hp)%datafile_elem)%observations_elem.
  apply parse_line_Some in Hp as (Hobj & l & Hl & Hi & Hm & Hc).
  exists name, text, line, l. split_and!; done.
Qed.

(** * Records of implementations outside the Sections *)

Lemma of_impl_shown cfg i l :
  configured cfg i -> of_impl i (shown cfg l) = of_impl i l.
Proof.
  intros Hi. unfold of_impl, shown. rewrite list_filter_filter.
  apply list_filter_iff. intros o. split; [tauto|]. intros <-. tauto.
Qed.

Lemma host_step_shown cfg i text text' cur :
  configured cfg i -> shown cfg (datafile text) = shown cfg (datafile text') ->
  host_step i text cur = host_step i text' cur.
Proof.
  intros Hi Heq. unfold host_step.
  by rewrite <- (of_impl_shown cfg i (datafile text)), Heq, of_impl_shown.
Qed.

Lemma foldR_add_host_same cfg files files' :
  Forall2 (same_shown cfg) files files' ->
  forall acc acc', agree cfg acc acc' ->
  match foldR add_host files acc, foldR add_host files' acc' with
  | Ok m, Ok m' => agree cfg m m'
  | Throw e, Throw e' => e = e'
  | _, _ => False
  end.
Proof.
  induction 1 as [|[name file] [name' file'] files files' [Hn Hf] _ IH];
    intros acc acc' Hacc; simpl in *; [done|]. subst name'.
  destruct file as [text|], file' as [text'|]; try done.
  destruct (add_host_total name text acc) as [acc1 H1].
  destruct (add_host_total name text' acc') as [acc1' H1'].
  rewrite H1, H1'. simpl. apply IH. intros i Hi.
  rewrite (add_host_lookup _ _ _ _ i H1), (add_host_lookup _ _ _ _ i H1'), (Hacc i Hi).
  by apply (host_step_shown cfg).
Qed.

Lemma Forall2_List_filter {A} (R : A -> A -> Prop) (f : A -> bool) l l' :
  (forall a a', R a a' -> f a = f a') ->
  Forall2 R l l' -> Forall2 R (List.filter f l) (List.filter f l').
Proof.
  intros Hf. induction 1 as [|a a' l l' Ha _ IH]; simpl; [constructor|].
  rewrite <- (Hf _ _ Ha). destruct (f a); [by constructor|done].
Qed.

Lemma data_same cfg dir dir' :
  Forall2 (same_shown cfg) dir dir' ->
  match data cfg dir, data cfg dir' with
  | Ok m, Ok m' => agree cfg m m'
  | Throw e, Throw e' => e = e'
  | _, _ => False
  end.
Proof.
  intros Hdir. unfold data. apply foldR_add_host_same; [|done].
  apply Forall2_List_filter; [|done].
  intros [n f] [n' f'] [Hn _]. unfold allowed. simpl in *. by subst.
Qed.

Lemma genBarTable_agree eng cfg m m' :
  agree cfg m m' -> genBarTable eng cfg m = genBarTable eng cfg m'.
Proof.
  intros Hag. unfold genBarTable.
  destruct (table_head cfg); simpl; [|done].
  rewrite (mapR_ext (render_section eng cfg m) (render_section eng cfg m')); [done|].
  intros implementations Hsec. unfold render_section, section_rows.
  rewrite (mapR_ext (lookup_impl cfg m) (lookup_impl cfg m')); [done|].
  intros ii Hii. unfold lookup_impl. rewrite (Hag ii); [done|].
  by exists implementations.
Qed.

Lemma plain_key_not_reserved k : plain_key k = true -> reserved k = false.
Proof.
  unfold plain_key. intros [[H _]%andb_true_iff _]%andb_true_iff.
  by apply negb_true_iff.
Qed.

Lemma plain_records_elem cfg dir o :
  plain_records cfg dir = true -> o ∈ observations cfg dir ->
  plain_key (impl o) = true /\ plain_key (machine o) = true.
Proof.
  unfold plain_records, plain_record. rewrite forallb_forall.
  intros H Ho%list_elem_of_In. by apply andb_true_iff, H.
Qed.

(** C10 (amended).  When the implementation and the host of every
    parsed record are plain keys, two listings whose files hold the same
    records of configured implementations give the same run: the same
    text and the same outcome.  Records of implementations outside every
    Section are loaded all the same: the implementation of each parsed
    Observation has an entry in the matrix.  (A record whose
    implementation is a reserved key is parsed but not stored.) *)
Theorem unconfigured_records_do_not_show eng cfg dir dir' :
  Forall2 (same_shown cfg) dir dir' ->
  plain_records cfg dir = true -> plain_records cfg dir' = true ->
  main eng cfg (Some dir) = main eng cfg (Some dir') /\
  (forall m o, data cfg dir = Ok m -> o ∈ observations cfg dir -> is_Some (m !! impl o)).
Proof.
  intros Hdir Hplain _. split.
  2:{ intros m o Hm Ho. apply (data_records cfg dir); [|done..].
      by apply plain_key_not_reserved, (plain_records_elem cfg dir). }
  unfold main. pose proof (data_same cfg dir dir' Hdir) as H.
  destruct (data cfg dir) as [m|e], (data cfg dir') as [m'|e']; try done.
  - by rewrite (genBarTable_agree eng cfg m m' H).
  - by subst.
Qed.

(** * Sample runs *)

Lemma data_matrix_of cfg dir :
  forallb (fun e => match e.2 with Some _ => true | None => false end)
          (List.filter (allowed cfg) dir) = true ->
  data cfg dir = Ok (matrix_of cfg dir).
Proof.
  intros H. unfold matrix_of.
  destruct (foldR_add_host_Ok (List.filter (allowed cfg) dir) ∅) as [m Hm].
  - rewrite forallb_forall in H. apply Forall_forall.
    intros e He%list_elem_of_In%H. destruct e.2; [by eexists|done].
  - unfold data. by rewrite Hm.
Qed.

Lemma section_rows_rows_of cfg dir implementations :
  forallb (fun e => match e.2 with Some _ => true | None => false end)
          (List.filter (allowed cfg) dir) = true ->
  forallb (fun ii => bool_decide (is_Some (implMap cfg !! ii))) implementations = true ->
  section_rows cfg (matrix_of cfg dir) implementations =
    Ok (rows_of cfg dir implementations).
Proof.
  intros H1 H2. unfold rows_of. rewrite (data_matrix_of _ _ H1).
  destruct (section_rows_total cfg (matrix_of cfg dir) implementations) as [d ->]; [|done].
  rewrite forallb_forall in H2. intros ii Hii%list_elem_of_In%H2.
  by apply bool_decide_eq_true in Hii.
Qed.

Ltac finite_mem H :=
  vm_compute in H; apply list_elem_of_In in H; simpl in H;
  repeat match type of H with
         | _ \/ _ => destruct H as [H|H]
         | False => destruct H
         end; subst.

(** C1, counterexample *)
Lemma matrix_value_not_minimum :
  stored supercop_config dir_foreign_lines sandy2x "nakhash" = Some (Number "100") /\
  observations supercop_config dir_foreign_lines =
    [ {| impl := sandy2x; cycles := Number "10"; machine := "kivsa" |};
      {| impl := sandy2x; cycles := Number "50"; machine := "nakhash" |};
      {| impl := sandy2x; cycles := Number "100"; machine := "nakhash" |} ] /\
  Num.ltb (Number "50") (Number "100") = true.
Proof. vm_compute. auto. Qed.

(** C1, witness *)
Lemma matrix_holds_fastest_witness :
  (exists o, o ∈ observations supercop_config dir_two_hosts /\
     impl o = sandy2x /\ machine o = "kivsa" /\ cycles o = Number "5000") /\
  (forall o, o ∈ observations supercop_config dir_two_hosts ->
     impl o = sandy2x -> machine o = "kivsa" ->
     Num.leb (Number "5000") (cycles o) = true).
Proof.
  destruct (matrix_holds_fastest supercop_config dir_two_hosts
              (matrix_of supercop_config dir_two_hosts) sandy2x "kivsa" (Number "5000"))
    as [H1 H2].
  - apply data_matrix_of. vm_compute. reflexivity.
  - vm_compute. reflexivity.
  - split; [exact H1|]. apply H2.
    + refine (bool_decide_unpack _ _). vm_compute. exact I.
    + apply own_host_onlyb_true. vm_compute. reflexivity.
Defined.

(** C2, counterexample *)
Lemma unknown_status_is_parsed :
  parse_line (bench_line "unknown" "kivsa" sandy2x "141234") =
  Some {| impl := sandy2x; cycles := Number "141234"; machine := "kivsa" |}.
Proof. vm_compute. reflexivity. Qed.

(** C2, witness *)
Lemma parse_line_spec_witness :
  exists l n, holds_record (bench_line "ok" "kivsa" sandy2x "141234") l /\
    (l_status l = "ok" \/ l_status l = "unknown") /\
    sandy2x = l_impl l /\ "kivsa" = l_host l /\
    digits_value 0 (l_cycles l) = Some n /\ Number "141234" = Number (l_cycles l) /\
    ((n < 2 ^ 53)%N -> to_Z (Number "141234") = Some (Z.of_N n)).
Proof.
  destruct (parse_line_spec (bench_line "ok" "kivsa" sandy2x "141234")) as (_ & H & _).
  apply (H {| impl := sandy2x; cycles := Number "141234"; machine := "kivsa" |}).
  vm_compute. reflexivity.
Defined.

(** C3, counterexample *)
Lemma missing_host_does_not_fail :
  (main sqrt_engine supercop_config (Some dir_two_hosts)).2 = None /\
  exists r, rows_of supercop_config dir_two_hosts curve25519_section = [r] /\
    byMachine r !! "aljamus" = None /\
    mean_cell sqrt_engine supercop_config [r] r = "NaNk {\tiny (NaNx)}".
Proof.
  split; [vm_compute; reflexivity|].
  eexists. split; [vm_compute; reflexivity|].
  split; vm_compute; reflexivity.
Qed.

(** C3, witness *)
Lemma missing_host_gives_NaN_witness :
  Forall (fun r =>
            geomean sqrt_engine supercop_config (byMachine r) = NaN /\
            mean_cell sqrt_engine supercop_config
              (rows_of supercop_config dir_two_hosts curve25519_section) r =
              Str.padStart PAD_CYC "NaNk {\tiny (NaNx)}")
         (rows_of supercop_config dir_two_hosts curve25519_section).
Proof.
  apply Forall_forall. intros r Hr.
  destruct (missing_host_gives_NaN sqrt_engine (matrix_of supercop_config dir_two_hosts)
              curve25519_section
              (rows_of supercop_config dir_two_hosts curve25519_section) r)
    as (H1 & _ & H3 & _).
  - apply section_rows_rows_of; vm_compute; reflexivity.
  - exact Hr.
  - exists "aljamus". split; [apply list_elem_of_In; vm_compute; tauto|].
    finite_mem Hr. vm_compute. reflexivity.
  - split; [exact H1|exact H3].
Defined.

(** C5, counterexample *)
Lemma observation_host_differs_from_directory :
  observations supercop_config dir_foreign_only =
    [ {| impl := sandy2x; cycles := Number "50"; machine := "nakhash" |} ] /\
  dir_foreign_only.*1 = [ "kivsa" ] /\
  stored supercop_config dir_foreign_only sandy2x "nakhash" = Some (Number "50") /\
  stored supercop_config dir_foreign_only sandy2x "kivsa" = None.
Proof. vm_compute. auto. Qed.

(** C5, witness *)
Lemma observation_carries_line_host_witness :
  exists name text line l,
    (name, Some text) ∈ dir_foreign_only /\ name ∈ machineOrder supercop_config /\
    line ∈ Str.split (ascii_of_nat 10) text /\
    Str.includes "objsize" line = false /\
    holds_record line l /\
    "nakhash" = l_host l /\ sandy2x = l_impl l /\ Number "50" = Number (l_cycles l).
Proof.
  apply (observation_carries_line_host supercop_config dir_foreign_only
           {| impl := sandy2x; cycles := Number "50"; machine := "nakhash" |}).
  apply list_elem_of_In. vm_compute. tauto.
Defined.

(** C6, counterexample *)
Lemma tie_emphasizes_two_cells :
  exists r1 r2, rows_of supercop_config dir_tie curve25519_section = [r1; r2] /\
    iname r1 = sandy2x /\ iname r2 = amd64_64 /\
    host_cells sqrt_engine supercop_config [r1; r2] r1 !! 0%nat = Some "\textbf{1k {\tiny (1.00x)}}" /\
    host_cells sqrt_engine supercop_config [r1; r2] r2 !! 0%nat = Some "\textbf{1k {\tiny (1.00x)}}".
Proof.
  do 2 eexists. split; [vm_compute; reflexivity|].
  split_and!; vm_compute; reflexivity.
Qed.

(** C6, witness *)
Lemma smallest_is_emphasized_witness :
  column (rows_of supercop_config dir_two_impls curve25519_section) "kivsa" =
    [ Number "1000"; Number "1100" ] /\
  Math_min (column (rows_of supercop_config dir_two_impls curve25519_section) "kivsa") =
    Number "1000" /\
  (forall r, r ∈ rows_of supercop_config dir_two_impls curve25519_section ->
     Num.leb (Math_min (column (rows_of supercop_config dir_two_impls curve25519_section)
                               "kivsa"))
             (num_at (byMachine r) "kivsa") = true) /\
  (exists r, r ∈ rows_of supercop_config dir_two_impls curve25519_section /\
     Num.eqb (num_at (byMachine r) "kivsa")
             (Math_min (column (rows_of supercop_config dir_two_impls curve25519_section)
                               "kivsa")) = true) /\
  map (fun r => host_cells sqrt_engine supercop_config
                  (rows_of supercop_config dir_two_impls curve25519_section) r !! 0%nat)
      (rows_of supercop_config dir_two_impls curve25519_section) =
    [ Some "\textbf{1k {\tiny (1.00x)}}";
      Some (Str.padStart PAD_CYC "1k {\tiny (1.10x)}") ].
Proof.
  destruct (smallest_is_emphasized sqrt_engine supercop_config
              (matrix_of supercop_config dir_two_impls) curve25519_section
              (rows_of supercop_config dir_two_impls curve25519_section))
    as (_ & _ & H & _).
  - apply section_rows_rows_of; vm_compute; reflexivity.
  - destruct (H "kivsa") as [H1 H2].
    + vm_compute. discriminate.
    + intros x Hx. finite_mem Hx; reflexivity.
    + split; [vm_compute; reflexivity|].
      split; [vm_compute; reflexivity|].
      split; [exact H1|]. split; [exact H2|]. vm_compute. reflexivity.
Defined.

(** C7, counterexample *)
Lemma preamble_printed_before_failure :
  main sqrt_engine config_unknown_impl (Some []) =
    ([ table_start CAPTION LABEL ],
     Some (Error "crypto_scalarmult/curve25519/ref10 not in impl")).
Proof. vm_compute. reflexivity. Qed.

(** C7, witness *)
Lemma unknown_implementation_is_fatal_witness :
  exists e, main sqrt_engine config_unknown_impl (Some []) = ([], Some e) \/
            main sqrt_engine config_unknown_impl (Some []) = ([table_start CAPTION LABEL], Some e).
Proof.
  apply (unknown_implementation_is_fatal sqrt_engine config_unknown_impl (Some []) [ref10] ref10).
  - by left.
  - by left.
  - vm_compute. reflexivity.
Defined.

(** C8, witness *)
Lemma absent_implementations_have_no_row_witness :
  exists d,
    render_section sqrt_engine supercop_config (matrix_of supercop_config dir_two_hosts)
        curve25519_section =
      Ok (Str.join Str.nl
            ("\midrule" :: multirow curve25519_section "Curve25519" ::
             map (render_row sqrt_engine supercop_config d) d)) /\
    section_rows supercop_config (matrix_of supercop_config dir_two_hosts)
        curve25519_section = Ok d /\
    map iname d = present (matrix_of supercop_config dir_two_hosts) curve25519_section /\
    (forall ii, matrix_of supercop_config dir_two_hosts !! ii = None -> ii ∉ map iname d) /\
    section_rows supercop_config (matrix_of supercop_config dir_two_hosts)
        (present (matrix_of supercop_config dir_two_hosts) curve25519_section) = Ok d.
Proof.
  apply (absent_implementations_have_no_row sqrt_engine supercop_config
           (matrix_of supercop_config dir_two_hosts) curve25519_section "Curve25519").
  - vm_compute. reflexivity.
  - intros ii Hii. finite_mem Hii; vm_compute; eauto.
Defined.

(** C9, the defect at a concrete input *)
Lemma multirow_span_exceeds_rows :
  exists r,
    rows_of supercop_config dir_two_hosts curve25519_section = [r] /\
    render_section sqrt_engine supercop_config (matrix_of supercop_config dir_two_hosts)
        curve25519_section =
      Ok (Str.join Str.nl
            [ "\midrule";
              "\multirow{16}{*}{\rotatebox[origin=c]{90}{\centering Curve25519}}";
              render_row sqrt_engine supercop_config [r] r ]).
Proof.
  eexists. split; [vm_compute; reflexivity|]. vm_compute. reflexivity.
Qed.

(** C10, counterexample: a record of an implementation that no Section
    names is parsed, and the matrix stays empty. *)
Lemma reserved_implementation_is_not_stored :
  observations supercop_config dir_reserved =
    [ {| impl := "constructor"; cycles := Number "5000"; machine := "kivsa" |} ] /\
  ~ configured supercop_config "constructor" /\
  data supercop_config dir_reserved = Ok ∅.
Proof.
  split; [vm_compute; reflexivity|]. split.
  - refine (bool_decide_unpack _ _). vm_compute. reflexivity.
  - vm_compute. reflexivity.
Qed.

(** C10, witness *)
Lemma unconfigured_records_do_not_show_witness :
  main sqrt_engine supercop_config (Some dir_two_hosts_extra) =
    main sqrt_engine supercop_config (Some dir_two_hosts) /\
  (forall m o, data supercop_config dir_two_hosts_extra = Ok m ->
     o ∈ observations supercop_config dir_two_hosts_extra -> is_Some (m !! impl o)).
Proof.
  apply (unconfigured_records_do_not_show sqrt_engine supercop_config
           dir_two_hosts_extra dir_two_hosts).
  - unfold dir_two_hosts_extra, dir_two_hosts.
    repeat (constructor; [split; [reflexivity|vm_compute; reflexivity]|]).
    constructor.
  - vm_compute. reflexivity.
  - vm_compute. reflexivity.
Defined.



(** * Further properties of the loader *)

(** ** Splitting and joining *)

Lemma split_not_nil c s : Str.split c s <> [].
Proof.
  destruct s as [|a s]; simpl; [done|].
  destruct (Ascii.eqb a c); [done|]. by destruct (Str.split c s).
Qed.

Lemma join_cons sep x l :
  l <> [] -> Str.join sep (x :: l) = x +:+ sep +:+ Str.join sep l.
Proof. by destruct l. Qed.

Lemma split_app c a b :
  Str.split c (a +:+ String c b) = Str.split c a ++ Str.split c b.
Proof.
  induction a as [|x a IH].
  - rewrite sapp_nil_l. simpl. by rewrite Ascii.eqb_refl.
  - rewrite sapp_cons. simpl. rewrite IH.
    destruct (Ascii.eqb x c); [done|].
    pose proof (split_not_nil c a). by destruct (Str.split c a).
Qed.

Lemma split_no_sep c s :
  all_in (fun a => negb (Ascii.eqb a c)) s = true -> Str.split c s = [s].
Proof.
  induction s as [|a s IH]; simpl; [done|].
  intros [Ha Hs]%andb_true_iff. apply negb_true_iff in Ha. rewrite Ha.
  by rewrite (IH Hs).
Qed.

(** X1.  Splitting a text at a character and joining the pieces with
    that character gives the text back: the lines the loader takes from
    a file, and the path components the renderer takes from an
    identifier, lose nothing of the text they come from. *)
Theorem join_split c s : Str.join (String c EmptyString) (Str.split c s) = s.
Proof.
  induction s as [|a s IH]; [reflexivity|]. simpl.
  destruct (Ascii.eqb_spec a c) as [->|Hne].
  - rewrite join_cons by apply split_not_nil. by rewrite IH.
  - pose proof (split_not_nil c s) as Hnil.
    destruct (Str.split c s) as [|l ls]; [done|].
    destruct ls as [|l' ls].
    + simpl in *. by rewrite IH.
    + rewrite join_cons in * by done. rewrite sapp_cons. by rewrite IH.
Qed.

(** X2.  Conversely, joining a non-empty list of pieces, none of which
    holds the separator, and splitting the result gives the pieces back:
    a file written as lines joined by newlines is read as those lines,
    and an identifier written as components joined by "/" is read as
    those components. *)
Theorem split_join c ls :
  ls <> [] -> Forall (fun s => all_in (fun a => negb (Ascii.eqb a c)) s = true) ls ->
  Str.split c (Str.join (String c EmptyString) ls) = ls.
Proof.
  induction ls as [|x ls IH]; [done|]. intros _ [Hx Hls]%Forall_cons.
  destruct ls as [|y ls]; [by apply split_no_sep|].
  rewrite join_cons by done.
  change (x +:+ String c EmptyString +:+ Str.join (String c EmptyString) (y :: ls))
    with (x +:+ String c (Str.join (String c EmptyString) (y :: ls))).
  rewrite split_app, split_no_sep by done. by rewrite IH.
Qed.

(** X2, witness *)
Lemma split_join_witness :
  Str.split "/" (Str.join "/" [ "crypto_scalarmult"; "curve25519"; "sandy2x" ]) =
    [ "crypto_scalarmult"; "curve25519"; "sandy2x" ].
Proof.
  apply (split_join "/" [ "crypto_scalarmult"; "curve25519"; "sandy2x" ]).
  - discriminate.
  - repeat constructor.
Defined.

(** X3.  The records parsed from two texts put one after the other with
    a newline between them are the records of the first followed by the
    records of the second: parsing works line by line, and no record
    spans a line break. *)
Theorem datafile_app a b :
  datafile (a +:+ Str.nl +:+ b) = datafile a ++ datafile b.
Proof.
  rewrite !datafile_parse.
  change (a +:+ Str.nl +:+ b) with (a +:+ String (ascii_of_nat 10) b).
  by rewrite split_app, omap_app.
Qed.

(** ** The keys of a record *)

Lemma all_in_weaken (p q : ascii -> bool) s :
  (forall c, p c = true -> q c = true) -> all_in p s = true -> all_in q s = true.
Proof.
  intros Hpq. induction s as [|a s IH]; simpl; [done|].
  intros [Ha Hs]%andb_true_iff. by rewrite (Hpq _ Ha), IH.
Qed.

Lemma dash_word_slash_no_path_char c :
  dash_word_slash c = true -> negb (path_char c) = true.
Proof. destruct c as [[] [] [] [] [] [] [] []]; vm_compute; congruence. Qed.

Lemma word_no_path_char c : word c = true -> negb (path_char c) = true.
Proof. destruct c as [[] [] [] [] [] [] [] []]; vm_compute; congruence. Qed.

Lemma no_path_char_no_dot c :
  negb (path_char c) = true -> negb (Ascii.eqb c ".") = true.
Proof. destruct c as [[] [] [] [] [] [] [] []]; vm_compute; congruence. Qed.

Lemma split_path_of i m :
  all_in (fun c => negb (path_char c)) i = true ->
  all_in (fun c => negb (path_char c)) m = true ->
  Str.split "." (path_of i m) = [i; m].
Proof.
  intros Hi Hm. unfold path_of.
  change (i +:+ "." +:+ m) with (i +:+ String "." m).
  rewrite split_app, !split_no_sep; [done|..];
    by apply (all_in_weaken _ _ _ no_path_char_no_dot).
Qed.

(** X4.  The implementation and the host of every parsed record are
    non-empty, the implementation is made of word characters, "-" and
    "/", the host of word characters; so neither holds ".", "[" or "]",
    and the path [`${impl}.${machine}`] the loader hands to [set], split
    at its dots as lodash splits a path without brackets, has exactly
    the two components it is built from. *)
Theorem observation_keys_are_plain text o :
  o ∈ datafile text ->
  impl o <> EmptyString /\ machine o <> EmptyString /\
  all_in dash_word_slash (impl o) = true /\ all_in word (machine o) = true /\
  all_in (fun c => negb (path_char c)) (impl o) = true /\
  all_in (fun c => negb (path_char c)) (machine o) = true /\
  Str.split "." (path_of (impl o) (machine o)) = [impl o; machine o].
Proof.
  intros (line & _ & (_ & l & (Hwf & _) & -> & -> & _)%parse_line_Some)%datafile_elem.
  destruct Hwf as (_ & [Hh1 Hh2] & _ & _ & _ & _ & _ & _ & _ & _ & _ & _ & [Hi1 Hi2] & _).
  assert (Hi : all_in (fun c => negb (path_char c)) (l_impl l) = true)
    by (by apply (all_in_weaken _ _ _ dash_word_slash_no_path_char)).
  assert (Hm : all_in (fun c => negb (path_char c)) (l_host l) = true)
    by (by apply (all_in_weaken _ _ _ word_no_path_char)).
  split_and!; try done. by apply split_path_of.
Qed.

(** X4, witness *)
Lemma observation_keys_are_plain_witness :
  impl kivsa_5000 <> EmptyString /\ machine kivsa_5000 <> EmptyString /\
  all_in dash_word_slash (impl kivsa_5000) = true /\
  all_in word (machine kivsa_5000) = true /\
  all_in (fun c => negb (path_char c)) (impl kivsa_5000) = true /\
  all_in (fun c => negb (path_char c)) (machine kivsa_5000) = true /\
  Str.split "." (path_of (impl kivsa_5000) (machine kivsa_5000)) =
    [ impl kivsa_5000; machine kivsa_5000 ].
Proof.
  apply (observation_keys_are_plain kivsa_text kivsa_5000).
  apply list_elem_of_In. vm_compute. left. reflexivity.
Defined.

(** ** The fastest record of a group *)

Lemma minBy_cycles_snoc l o :
  minBy_cycles (l ++ [o]) = minBy_step (minBy_cycles l) o.
Proof. unfold minBy_cycles. by rewrite fold_left_app. Qed.

(** X5.  [minBy] returns the first of the fastest records: every record
    before the returned one is strictly slower, and no record after it
    is strictly faster.  Among records that tie on the cycle count, the
    host written to the matrix is therefore the host of the earliest
    line. *)
Theorem minBy_cycles_first l b :
  minBy_cycles l = Some b ->
  exists l1 l2, l = l1 ++ b :: l2 /\
    (forall o, o ∈ l1 -> is_nan (cycles o) = false ->
       Num.ltb (cycles b) (cycles o) = true) /\
    (forall o, o ∈ l2 -> Num.ltb (cycles o) (cycles b) = false).
Proof.
  revert b. induction l as [|o l IH] using rev_ind; intros b; [discriminate|].
  rewrite minBy_cycles_snoc.
  pose proof (minBy_cycles_spec l) as Hspec.
  destruct (minBy_cycles l) as [b0|]; simpl.
  - destruct (IH b0 eq_refl) as (l1 & l2 & -> & H1 & H2).
    destruct Hspec as (_ & Hnb0 & _).
    destruct (Num.ltb (cycles o) (cycles b0)) eqn:Hlt; intros [= <-].
    + exists (l1 ++ b0 :: l2), []. split_and!; [done| |by intros ? ?%elem_of_nil].
      destruct (num_ltb_not_nan _ _ Hlt) as [Hno _].
      intros x [Hx|[->|Hx]%elem_of_cons]%elem_of_app Hnx.
      * specialize (H1 x Hx Hnx). by_key.
      * done.
      * specialize (H2 x Hx). by_key.
    + exists l1, (l2 ++ [o]). split_and!; [by rewrite <- app_assoc|done|].
      intros x [Hx| ->%list_elem_of_singleton]%elem_of_app; auto.
  - destruct (is_nan (cycles o)) eqn:Hn; [discriminate|]. intros [= <-].
    exists l, []. split_and!; [done| |by intros ? ?%elem_of_nil].
    intros x Hx Hnx. rewrite Hspec in Hnx by done. discriminate.
Qed.

(** X5, witness *)
Lemma minBy_cycles_first_witness :
  exists l1 l2, datafile kivsa_text = l1 ++ kivsa_5000 :: l2 /\
    (forall o, o ∈ l1 -> is_nan (cycles o) = false ->
       Num.ltb (cycles kivsa_5000) (cycles o) = true) /\
    (forall o, o ∈ l2 -> Num.ltb (cycles o) (cycles kivsa_5000) = false).
Proof.
  apply (minBy_cycles_first (datafile kivsa_text) kivsa_5000).
  vm_compute. reflexivity.
Defined.

(** ** One file *)

Lemma plain_record_not_reserved o :
  plain_record o = true -> reserved (impl o) = false /\ reserved (machine o) = false.
Proof.
  unfold plain_record. intros [Hi Hm]%andb_true_iff.
  split; by apply plain_key_not_reserved.
Qed.

(** X6.  Reading one file whose parsed records have plain keys into an
    empty matrix leaves, for every implementation with a parsed record
    in the file, a row with a single entry: the host and the cycle count
    of a fastest record of that implementation.  An implementation
    without a record in the file gets no row.  So one file never
    contributes more than one value per implementation, whatever hosts
    its lines name. *)
Theorem add_host_one_entry_per_implementation name text m i :
  forallb plain_record (datafile text) = true ->
  add_host ∅ (name, Some text) = Ok m ->
  match m !! i with
  | Some bm => exists o, least_of o (of_impl i (datafile text)) /\
                 bm = {[ machine o := cycles o ]}
  | None => of_impl i (datafile text) = []
  end.
Proof.
  intros Hplain Hm. rewrite (add_host_lookup _ _ _ _ i Hm), lookup_empty. unfold host_step.
  pose proof (minBy_cycles_spec (of_impl i (datafile text))) as Hspec.
  destruct (minBy_cycles (of_impl i (datafile text))) as [o|] eqn:Hmin.
  - pose proof Hspec as [[Hi Ho]%list_elem_of_filter _].
    rewrite forallb_forall in Hplain.
    destruct (plain_record_not_reserved o) as [Hri Hrm];
      [by apply Hplain, list_elem_of_In|].
    subst i. unfold set_row. rewrite Hri, Hrm. exists o. split; [done|].
    simpl. by rewrite insert_empty.
  - apply elem_of_nil_inv. intros o Ho.
    assert (Hd : o ∈ datafile text) by (by apply list_elem_of_filter in Ho as [_ ?]).
    specialize (Hspec o Ho). by rewrite (datafile_not_nan _ _ Hd) in Hspec.
Qed.

Lemma add_host_value_of name text acc :
  add_host acc (name, Some text) = Ok (value_of ∅ (add_host acc (name, Some text))).
Proof. destruct (add_host_total name text acc) as [m Hm]. by rewrite Hm. Qed.

(** X6, witness *)
Lemma add_host_one_entry_per_implementation_witness :
  match value_of ∅ (add_host ∅ ("kivsa", Some kivsa_text)) !! sandy2x with
  | Some bm => exists o, least_of o (of_impl sandy2x (datafile kivsa_text)) /\
                 bm = {[ machine o := cycles o ]}
  | None => of_impl sandy2x (datafile kivsa_text) = []
  end.
Proof.
  apply (add_host_one_entry_per_implementation "kivsa" kivsa_text).
  - vm_compute. reflexivity.
  - apply add_host_value_of.
Defined.

Lemma set_row_other i m v cur h :
  h <> m -> set_row i m v cur ≫= (.!! h) = cur ≫= (.!! h).
Proof.
  intros Hh. unfold set_row. destruct (reserved i); [done|].
  destruct (reserved m); simpl.
  - destruct cur; simpl; [done|apply lookup_empty].
  - rewrite lookup_insert_ne by done.
    destruct cur; simpl; [done|apply lookup_empty].
Qed.

(** X7.  Reading the file of a host whose parsed lines all carry that
    host's name changes no entry of any other host: for every
    implementation, what the matrix holds under another host is what it
    held before. *)
Theorem add_host_keeps_other_hosts acc name text acc' i h :
  add_host acc (name, Some text) = Ok acc' ->
  Forall (fun o => machine o = name) (datafile text) ->
  h <> name ->
  acc' !! i ≫= (.!! h) = acc !! i ≫= (.!! h).
Proof.
  intros Hacc Hown Hh. rewrite (add_host_lookup _ _ _ _ i Hacc). unfold host_step.
  pose proof (minBy_cycles_spec (of_impl i (datafile text))) as Hspec.
  destruct (minBy_cycles (of_impl i (datafile text))) as [o|]; [|done].
  destruct Hspec as ([_ Ho]%list_elem_of_filter & _).
  rewrite Forall_forall in Hown. rewrite <- (Hown _ Ho) in Hh.
  by apply set_row_other.
Qed.

(** X7, witness *)
Lemma add_host_keeps_other_hosts_witness :
  value_of ∅ (add_host (value_of ∅ (add_host ∅ ("nakhash", Some nakhash_text)))
                       ("kivsa", Some kivsa_text))
    !! sandy2x ≫= (.!! "nakhash") =
  value_of ∅ (add_host ∅ ("nakhash", Some nakhash_text)) !! sandy2x ≫= (.!! "nakhash").
Proof.
  apply (add_host_keeps_other_hosts _ "kivsa" kivsa_text).
  - apply add_host_value_of.
  - vm_compute. constructor; [reflexivity|]. constructor; [reflexivity|]. constructor.
  - discriminate.
Defined.

(** ** When loading fails *)

(** X8.  When the records parsed from the allow-listed files have plain
    keys, loading succeeds exactly when every listed directory of an
    allow-listed host has a readable [data] file; a failure is the file
    system error for the [data] file of an allow-listed directory that
    cannot be read.  Nothing else makes the loader fail: no line that
    holds no record, however malformed, and no directory outside the
    allow-list. *)
Theorem data_fails_on_unreadable_file_only cfg dir :
  plain_records cfg dir = true ->
  ((exists m, data cfg dir = Ok m) <->
   forall name file, (name, file) ∈ dir -> name ∈ machineOrder cfg -> is_Some file) /\
  (forall e, data cfg dir = Throw e ->
     exists name, e = FsError (name +:+ "/data") /\
       (name, None) ∈ dir /\ name ∈ machineOrder cfg).
Proof.
  intros _. unfold data. split; [split|].
  - intros [m Hm] name file Hin Hname.
    pose proof (foldR_add_host_readable _ _ _ Hm) as Hall.
    rewrite Forall_forall in Hall. apply (Hall (name, file)).
    apply elem_of_List_filter. split; [done|]. unfold allowed. by apply bool_decide_eq_true.
  - intros Hall. apply foldR_add_host_Ok, Forall_forall.
    intros [name file] [Hin Hal]%elem_of_List_filter. apply (Hall name file Hin).
    unfold allowed in Hal. by apply bool_decide_eq_true in Hal.
  - intros e (pre & name & post & Heq & _ & ->)%foldR_add_host_Throw.
    assert (Hin : (name, None) ∈ List.filter (allowed cfg) dir).
    { rewrite Heq. apply elem_of_app. right. by left. }
    apply elem_of_List_filter in Hin as [Hin Hal].
    exists name. split_and!; [done|done|].
    unfold allowed in Hal. by apply bool_decide_eq_true in Hal.
Qed.

(** X8, witness *)
Lemma data_fails_on_unreadable_file_only_witness :
  ((exists m, data supercop_config dir_two_hosts = Ok m) <->
   forall name file, (name, file) ∈ dir_two_hosts ->
     name ∈ machineOrder supercop_config -> is_Some file) /\
  (forall e, data supercop_config dir_two_hosts = Throw e ->
     exists name, e = FsError (name +:+ "/data") /\
       (name, None) ∈ dir_two_hosts /\ name ∈ machineOrder supercop_config).
Proof.
  apply (data_fails_on_unreadable_file_only supercop_config dir_two_hosts).
  vm_compute. reflexivity.
Defined.

(** ** What the matrix holds *)

Lemma binary_round_aux_is_count mx ex lx :
  (0 <= mx)%Z -> is_count (binary_round_aux prec emax false mx ex lx) = true.
Proof.
  intros Hm. unfold binary_round_aux.
  pose proof (shr_fexp_nonneg mx ex lx Hm) as H1.
  destruct (shr_fexp prec emax mx ex lx) as [mrs' e']. simpl in H1.
  assert (H2 : 0 <= round_nearest_even (shr_m mrs') (loc_of_shr_record mrs')).
  { unfold round_nearest_even. destruct (loc_of_shr_record mrs') as [|[]];
      try destruct (Z.even _); lia. }
  pose proof (shr_fexp_nonneg _ e' loc_Exact H2) as H3.
  destruct (shr_fexp prec emax _ e' loc_Exact) as [mrs'' e'']. simpl in H3.
  destruct (shr_m mrs''); try lia; [reflexivity|].
  destruct (_ <=? _); reflexivity.
Qed.

Lemma of_N_is_count n : is_count (Num.of_N n) = true.
Proof.
  unfold Num.of_N, of_Z, binary_normalize, binary_round.
  destruct (Z.of_N n) as [|m|m] eqn:Hn; [reflexivity| |lia].
  destruct (shl_align _ _ _). apply binary_round_aux_is_count. lia.
Qed.

Lemma is_count_not_nan x : is_count x = true -> is_nan x = false.
Proof. by destruct x as [[]|[]| |[]]. Qed.

(** X9.  Every value stored in the matrix is the Number value of a
    natural number, the one a record's digits denote: it is +0, a
    positive finite number or +Infinity, never NaN, never negative and
    never -0. *)
Theorem stored_values_are_cycle_counts cfg dir m i h v :
  data cfg dir = Ok m -> m !! i ≫= (.!! h) = Some v ->
  exists n, v = Num.of_N n /\ is_count v = true.
Proof.
  intros Hm Hv.
  destruct (data_entry_origin _ _ _ _ _ _ Hm Hv)
    as (name & text & o & _ & ([_ Ho]%list_elem_of_filter & _) & _ & <-).
  apply datafile_elem in Ho as (line & _ & (_ & l & (Hwf & _) & _ & _ & ->)%parse_line_Some).
  destruct Hwf as (_ & _ & _ & _ & _ & _ & _ & _ & _ & [_ Hc] & _).
  destruct (digits_value_total _ 0%N Hc) as [n Hn].
  exists n. unfold Number. rewrite Hn. split; [done|apply of_N_is_count].
Qed.

(** X9, witness *)
Lemma stored_values_are_cycle_counts_witness :
  exists n, Number "5000" = Num.of_N n /\ is_count (Number "5000") = true.
Proof.
  apply (stored_values_are_cycle_counts supercop_config dir_two_hosts
           (matrix_of supercop_config dir_two_hosts) sandy2x "kivsa").
  - apply data_matrix_of. vm_compute. reflexivity.
  - vm_compute. reflexivity.
Defined.

(** X10.  When every parsed line of a file carries the name of its own
    directory, every host the matrix has an entry for is a host of the
    fixed host ordering: the renderer's columns cover all stored
    values. *)
Theorem stored_hosts_are_allowed cfg dir m i h v :
  own_host_only cfg dir ->
  data cfg dir = Ok m -> m !! i ≫= (.!! h) = Some v ->
  h ∈ machineOrder cfg.
Proof.
  intros Hown Hm Hv.
  destruct (data_entry_origin _ _ _ _ _ _ Hm Hv)
    as (name & text & o & Hin & ([_ Ho]%list_elem_of_filter & _) & <- & _).
  unfold own_host_only in Hown. rewrite Forall_forall in Hown.
  pose proof (Hown _ Hin) as H. simpl in H. rewrite Forall_forall in H.
  rewrite (H _ Ho). apply elem_of_List_filter in Hin as [_ Hal].
  unfold allowed in Hal. by apply bool_decide_eq_true in Hal.
Qed.

(** X10, witness *)
Lemma stored_hosts_are_allowed_witness : "kivsa" ∈ machineOrder supercop_config.
Proof.
  apply (stored_hosts_are_allowed supercop_config dir_two_hosts
           (matrix_of supercop_config dir_two_hosts) sandy2x "kivsa" (Number "5000")).
  - apply own_host_onlyb_true. vm_compute. reflexivity.
  - apply data_matrix_of. vm_compute. reflexivity.
  - vm_compute. reflexivity.
Defined.

Lemma plain_records_file cfg dir name text :
  plain_records cfg dir = true ->
  (name, Some text) ∈ List.filter (allowed cfg) dir ->
  forallb plain_record (datafile text) = true.
Proof.
  unfold plain_records. rewrite !forallb_forall.
  intros Hall [Hin Hal]%elem_of_List_filter o Ho. apply Hall, list_elem_of_In.
  apply observations_elem. exists name, text. split_and!; [done| |by apply list_elem_of_In].
  unfold allowed in Hal. by apply bool_decide_eq_true in Hal.
Qed.

Lemma host_step_nonempty i text cur bm :
  forallb plain_record (datafile text) = true ->
  (forall bm0, cur = Some bm0 -> bm0 <> ∅) ->
  host_step i text cur = Some bm -> bm <> ∅.
Proof.
  intros Hplain Hcur. unfold host_step.
  pose proof (minBy_cycles_spec (of_impl i (datafile text))) as Hspec.
  destruct (minBy_cycles _) as [o|]; [|by apply Hcur].
  destruct Hspec as [[Hi Ho]%list_elem_of_filter _].
  rewrite forallb_forall in Hplain.
  destruct (plain_record_not_reserved o) as [Hri Hrm];
    [by apply Hplain, list_elem_of_In|].
  subst i. unfold set_row. rewrite Hri, Hrm.
  intros [= <-]. apply insert_non_empty.
Qed.

Lemma row_after_nonempty i files : forall cur bm,
  (forall name text, (name, Some text) ∈ files ->
     forallb plain_record (datafile text) = true) ->
  (forall bm0, cur = Some bm0 -> bm0 <> ∅) ->
  row_after i files cur = Some bm -> bm <> ∅.
Proof.
  induction files as [|[name [text|]] files IH]; intros cur bm Hplain Hcur; simpl.
  - apply Hcur.
  - apply IH.
    + intros n t Hin. apply (Hplain n t). by right.
    + intros bm0. apply host_step_nonempty; [|done]. apply (Hplain name text). by left.
  - apply Hcur.
Qed.

Lemma data_row_nonempty cfg dir m i bm :
  plain_records cfg dir = true ->
  data cfg dir = Ok m -> m !! i = Some bm -> bm <> ∅.
Proof.
  unfold data. intros Hplain Hm.
  rewrite (foldR_add_host_lookup _ _ _ i Hm), lookup_empty.
  apply row_after_nonempty; [|done].
  intros name text. by apply plain_records_file.
Qed.

(** X11.  When the records parsed from the allow-listed files have
    plain keys, the rows of the matrix are exactly the implementations
    that occur in a parsed record of an allow-listed file, and no row is
    empty: a row is created only together with its first value. *)
Theorem matrix_rows_are_parsed_implementations cfg dir m i :
  plain_records cfg dir = true ->
  data cfg dir = Ok m ->
  (is_Some (m !! i) <-> exists o, o ∈ observations cfg dir /\ impl o = i) /\
  (forall bm, m !! i = Some bm -> bm <> ∅).
Proof.
  intros Hplain Hm. split; [split|].
  - intros [bm Hbm].
    destruct (map_choose bm) as (h & v & Hv);
      [by apply (data_row_nonempty cfg dir m i)|].
    destruct (data_entry_origin cfg dir m i h v Hm) as (name & text & o & Hin & Hleast & _).
    { by rewrite Hbm. }
    destruct Hleast as [[Hi Ho]%list_elem_of_filter _].
    exists o. split; [|done]. apply observations_elem.
    apply elem_of_List_filter in Hin as [Hin Hal].
    exists name, text. split_and!; [done| |done].
    unfold allowed in Hal. by apply bool_decide_eq_true in Hal.
  - intros (o & Ho & <-). apply (data_records cfg dir); [|done..].
    by apply plain_key_not_reserved, (plain_records_elem cfg dir).
  - intros bm. by apply (data_row_nonempty cfg dir m i).
Qed.

(** X11, witness *)
Lemma matrix_rows_are_parsed_implementations_witness :
  (is_Some (matrix_of supercop_config dir_two_hosts !! sandy2x) <->
   exists o, o ∈ observations supercop_config dir_two_hosts /\ impl o = sandy2x) /\
  (forall bm, matrix_of supercop_config dir_two_hosts !! sandy2x = Some bm -> bm <> ∅).
Proof.
  apply (matrix_rows_are_parsed_implementations supercop_config dir_two_hosts).
  - vm_compute. reflexivity.
  - apply data_matrix_of. vm_compute. reflexivity.
Defined.

(** ** The order of the listing *)

Lemma set_row_comm i m1 v1 m2 v2 cur :
  m1 <> m2 ->
  set_row i m2 v2 (set_row i m1 v1 cur) = set_row i m1 v1 (set_row i m2 v2 cur).
Proof.
  intros Hne. unfold set_row.
  destruct (reserved i), (reserved m1), (reserved m2); simpl; try done.
  f_equal. by apply insert_insert_ne.
Qed.

Lemma host_step_comm i t1 t2 n1 n2 cur :
  n1 <> n2 ->
  Forall (fun o => machine o = n1) (datafile t1) ->
  Forall (fun o => machine o = n2) (datafile t2) ->
  host_step i t2 (host_step i t1 cur) = host_step i t1 (host_step i t2 cur).
Proof.
  intros Hne H1 H2. unfold host_step.
  pose proof (minBy_cycles_spec (of_impl i (datafile t1))) as S1.
  pose proof (minBy_cycles_spec (of_impl i (datafile t2))) as S2.
  destruct (minBy_cycles (of_impl i (datafile t1))) as [o1|],
           (minBy_cycles (of_impl i (datafile t2))) as [o2|]; try done.
  destruct S1 as ([_ Ho1]%list_elem_of_filter & _).
  destruct S2 as ([_ Ho2]%list_elem_of_filter & _).
  rewrite Forall_forall in H1, H2.
  apply set_row_comm. rewrite (H1 _ Ho1), (H2 _ Ho2). done.
Qed.

Lemma tidy_cons e files : tidy (e :: files) -> own_file e /\ (e.1 ∉ files.*1) /\ tidy files.
Proof.
  intros [[Hn Hnd]%NoDup_cons [He Hall]%Forall_cons]. by split_and!.
Qed.

Lemma tidy_Permutation files files' : files ≡ₚ files' -> tidy files -> tidy files'.
Proof.
  intros Hp [Hnd Hall]. split; [by rewrite <- Hp|by rewrite <- Hp].
Qed.

Lemma row_after_Permutation i files files' :
  files ≡ₚ files' -> tidy files ->
  forall cur, row_after i files cur = row_after i files' cur.
Proof.
  induction 1 as [|e l l' Hp IH|e1 e2 l|l l' l'' Hp1 IH1 Hp2 IH2]; intros Ht cur.
  - done.
  - apply tidy_cons in Ht as (He & _ & Ht). destruct e as [n [t|]]; [|done].
    simpl. by apply IH.
  - apply tidy_cons in Ht as (H2 & Hn2 & Ht). apply tidy_cons in Ht as (H1 & _ & _).
    destruct e1 as [n1 [t1|]], e2 as [n2 [t2|]]; try done. simpl.
    f_equal. symmetry. apply (host_step_comm i t1 t2 n1 n2); [|done|done].
    intros ->. apply Hn2. simpl. by left.
  - rewrite IH1 by done. apply IH2. by eapply tidy_Permutation.
Qed.

Lemma List_filter_Permutation {A} (f : A -> bool) l l' :
  l ≡ₚ l' -> List.filter f l ≡ₚ List.filter f l'.
Proof.
  induction 1 as [|x l l' _ IH|x y l|l l' l'' _ IH1 _ IH2]; simpl.
  - done.
  - destruct (f x); [by constructor|done].
  - destruct (f x), (f y); try done. apply perm_swap.
  - by etrans.
Qed.

Lemma tidy_filter cfg dir m :
  NoDup dir.*1 -> own_host_only cfg dir -> data cfg dir = Ok m ->
  tidy (List.filter (allowed cfg) dir).
Proof.
  intros Hnd Hown Hm. split; [by apply NoDup_fst_filter|].
  pose proof (foldR_add_host_readable _ _ _ Hm) as Hread.
  unfold own_host_only in Hown. rewrite Forall_forall in *.
  intros e He. specialize (Hown e He). specialize (Hread e He).
  unfold own_file. destruct Hread as [t Ht]. by rewrite Ht in *.
Qed.

(** X12.  When the listing names each directory once and every parsed
    line of a file carries the name of its own directory, the matrix
    does not depend on the order in which [readdirSync] lists the
    directories: every reordering of the listing loads the same
    matrix. *)
Theorem data_order_irrelevant cfg dir dir' m :
  dir ≡ₚ dir' -> NoDup dir.*1 -> own_host_only cfg dir ->
  data cfg dir = Ok m -> data cfg dir' = Ok m.
Proof.
  intros Hp Hnd Hown Hm.
  pose proof (tidy_filter _ _ _ Hnd Hown Hm) as Ht.
  pose proof (List_filter_Permutation (allowed cfg) _ _ Hp) as Hpf.
  destruct (foldR_add_host_Ok (List.filter (allowed cfg) dir') ∅) as [m' Hm'].
  { pose proof (foldR_add_host_readable _ _ _ Hm) as Hread. by rewrite <- Hpf. }
  unfold data in *. rewrite Hm'. f_equal. apply map_eq. intros i.
  rewrite (foldR_add_host_lookup _ _ _ i Hm), (foldR_add_host_lookup _ _ _ i Hm').
  symmetry. by apply row_after_Permutation.
Qed.

(** X12, witness *)
Lemma data_order_irrelevant_witness :
  data supercop_config dir_two_hosts_swapped = Ok (matrix_of supercop_config dir_two_hosts).
Proof.
  apply (data_order_irrelevant supercop_config dir_two_hosts dir_two_hosts_swapped).
  - apply perm_swap.
  - apply NoDup_cons. split.
    + intros [=]%list_elem_of_singleton.
    + apply NoDup_singleton.
  - apply own_host_onlyb_true. vm_compute. reflexivity.
  - apply data_matrix_of. vm_compute. reflexivity.
Defined.


(** * Further properties of the renderer *)

(** ** [Math.min] and the order of its arguments *)

Lemma Math_min_from_cons lowest x l :
  is_nan x = false ->
  Math_min_from lowest (x :: l) = Math_min_from (min_step lowest x) l.
Proof.
  intros Hx. unfold min_step.
  destruct x as [[]|[]| |[]], lowest as [[]|[]| |[]]; try discriminate; simpl;
    try reflexivity; by destruct (Num.ltb _ _).
Qed.

Lemma Math_min_from_cons_nan lowest x l :
  is_nan x = true -> Math_min_from lowest (x :: l) = NaN.
Proof. by destruct x. Qed.

Lemma min_step_not_nan lowest x :
  is_nan lowest = false -> is_nan x = false -> is_nan (min_step lowest x) = false.
Proof.
  intros Hl Hx. unfold min_step.
  destruct x as [[]|[]| |[]], lowest as [[]|[]| |[]]; try discriminate; simpl;
    try reflexivity; by destruct (Num.ltb _ _).
Qed.

Ltac ltb_keys :=
  repeat match goal with
  | H : Num.ltb _ _ = true |- _ => apply num_ltb_key in H; [|reflexivity..]
  | H : Num.ltb _ _ = false |- _ =>
      apply not_true_iff_false in H; rewrite num_ltb_key in H by reflexivity
  end;
  unfold lt3 in *; simpl in *.

Lemma min_step_comm lowest x y :
  is_nan lowest = false -> is_nan x = false -> is_nan y = false ->
  min_step (min_step lowest x) y = min_step (min_step lowest y) x.
Proof.
  intros Hl Hx Hy. unfold min_step.
  destruct x as [[]|[]| |[] mx ex], y as [[]|[]| |[] my ey],
           lowest as [[]|[]| |[] ml el]; try discriminate; simpl; try reflexivity;
    repeat match goal with
           | |- context [Num.ltb (S754_finite ?a ?b ?c) (S754_finite ?d ?e ?f)] =>
               destruct (Num.ltb (S754_finite a b c) (S754_finite d e f)) eqn:?; simpl
           end;
    try reflexivity; ltb_keys; try (exfalso; lia);
    try (assert (mx = my) by lia; assert (ex = ey) by lia; by subst).
Qed.

Lemma Math_min_from_Permutation l l' :
  l ≡ₚ l' -> forall lowest, is_nan lowest = false ->
  Math_min_from lowest l = Math_min_from lowest l'.
Proof.
  induction 1 as [|x l l' _ IH|x y l|l l' l'' _ IH1 _ IH2]; intros lowest Hlow.
  - done.
  - destruct (is_nan x) eqn:Hx.
    + by rewrite !Math_min_from_cons_nan.
    + rewrite !Math_min_from_cons by done. by apply IH, min_step_not_nan.
  - destruct (is_nan x) eqn:Hx, (is_nan y) eqn:Hy.
    + by rewrite !Math_min_from_cons_nan.
    + rewrite (Math_min_from_cons _ y) by done. by rewrite !Math_min_from_cons_nan.
    + rewrite (Math_min_from_cons _ x) by done. by rewrite !Math_min_from_cons_nan.
    + rewrite !Math_min_from_cons by done. by rewrite min_step_comm.
  - rewrite IH1 by done. by apply IH2.
Qed.

Lemma Math_min_Permutation l l' : l ≡ₚ l' -> Math_min l = Math_min l'.
Proof. intros Hp. by apply Math_min_from_Permutation. Qed.

(** ** The order of a Section's list *)

Lemma mapR_Permutation {A B} (f : A -> result B) l l' :
  l ≡ₚ l' -> forall bs, mapR f l = Ok bs ->
  exists bs', mapR f l' = Ok bs' /\ bs ≡ₚ bs'.
Proof.
  induction 1 as [|x l l' _ IH|x y l|l l' l'' _ IH1 _ IH2]; intros bs; simpl.
  - intros [= <-]. by exists [].
  - destruct (f x) as [b|]; simpl; [|discriminate].
    destruct (mapR f l) as [bs0|]; simpl; [|discriminate].
    intros [= <-]. destruct (IH bs0 eq_refl) as (bs0' & -> & Hp). simpl.
    exists (b :: bs0'). split; [done|]. by constructor.
  - destruct (f y) as [b|]; simpl; [|discriminate].
    destruct (f x) as [a|]; simpl; [|discriminate].
    destruct (mapR f l) as [bs0|]; simpl; [|discriminate].
    intros [= <-]. exists (a :: b :: bs0). split; [done|]. constructor.
  - intros Hbs. destruct (IH1 _ Hbs) as (bs' & Hbs' & Hp1).
    destruct (IH2 _ Hbs') as (bs'' & Hbs'' & Hp2).
    exists bs''. split; [done|]. by etrans.
Qed.

Lemma section_rows_Permutation cfg data implementations implementations' d :
  implementations ≡ₚ implementations' ->
  section_rows cfg data implementations = Ok d ->
  exists d', section_rows cfg data implementations' = Ok d' /\ d ≡ₚ d'.
Proof.
  intros Hp. unfold section_rows.
  destruct (mapR (lookup_impl cfg data) implementations) as [mapped|] eqn:Hm;
    simpl; [|discriminate].
  intros [= <-].
  destruct (mapR_Permutation _ _ _ Hp _ Hm) as (mapped' & -> & Hp'). simpl.
  exists (omap id mapped'). split; [done|]. by rewrite Hp'.
Qed.

Lemma meanByImplementation_Permutation eng cfg data implementations d d' :
  section_rows cfg data implementations = Ok d -> d ≡ₚ d' ->
  meanByImplementation eng cfg d = meanByImplementation eng cfg d'.
Proof.
  intros Hd Hp. apply map_eq. intros k. unfold meanByImplementation.
  pose proof (fold_insert_lookup iname (fun r => geomean eng cfg (byMachine r)) d k) as H.
  pose proof (fold_insert_lookup iname (fun r => geomean eng cfg (byMachine r)) d' k) as H'.
  simpl in H, H'.
  destruct (fold_left _ d ∅ !! k) as [x|], (fold_left _ d' ∅ !! k) as [y|]; [| | |done].
  - destruct H as (r & Hr & Hk & ->), H' as (r' & Hr' & Hk' & ->).
    rewrite <- Hp in Hr'. f_equal. f_equal.
    eapply section_rows_consistent; [done..|congruence].
  - destruct H as (r & Hr & Hk & _). rewrite Hp in Hr. by destruct (H' r Hr).
  - destruct H' as (r & Hr & Hk & _). rewrite <- Hp in Hr. by destruct (H r Hr).
Qed.

(** X13.  With plain tables and identifiers, reordering the identifiers
    of a Section's list reorders its rows and leaves the text of every
    row as it is: the rows are those of the identifiers with an entry, in the order of
    the new list, and every row prints the same cells, with the same
    column minima, emphasis and ratios ([Math.min] does not depend on
    the order of its arguments).  The heading of the Section is taken
    from the first identifier of the list; when both orders lead to the
    same heading, the two blocks have the same first two lines and the
    same rows, each in its own order. *)
Theorem row_text_independent_of_order eng cfg data implementations implementations' d :
  plain_tables cfg = true ->
  forallb (fun ii => negb (inherited ii)) implementations = true ->
  implementations ≡ₚ implementations' ->
  section_rows cfg data implementations = Ok d ->
  exists d', section_rows cfg data implementations' = Ok d' /\ d ≡ₚ d' /\
    map iname d' = present data implementations' /\
    (forall r, render_row eng cfg d r = render_row eng cfg d' r) /\
    (forall heading,
       heading_of cfg implementations = Ok heading ->
       heading_of cfg implementations' = Ok heading ->
       render_section eng cfg data implementations =
         Ok (Str.join Str.nl
               ("\midrule" :: multirow implementations heading ::
                map (render_row eng cfg d) d)) /\
       render_section eng cfg data implementations' =
         Ok (Str.join Str.nl
               ("\midrule" :: multirow implementations heading ::
                map (render_row eng cfg d) d'))).
Proof.
  intros _ _ Hp Hd.
  destruct (section_rows_Permutation _ _ _ _ _ Hp Hd) as (d' & Hd' & Hpd).
  assert (Hrow : forall r, render_row eng cfg d r = render_row eng cfg d' r).
  { intros r. unfold render_row.
    assert (Hhost : host_cells eng cfg d r = host_cells eng cfg d' r);
      [|rewrite Hhost; do 5 f_equal].
    - unfold host_cells. apply map_ext_in. intros machine Hm%list_elem_of_In.
      rewrite !smallestImplByMachine_lookup by done. f_equal.
      apply Math_min_Permutation. unfold column. by apply Permutation_map.
    - unfold mean_cell, smallestMean.
      by rewrite (meanByImplementation_Permutation eng cfg data implementations d d'). }
  exists d'. split_and!; [done|done| |done|].
  - by apply section_rows_spec in Hd' as (? & _).
  - intros heading Hh Hh'. unfold render_section. rewrite Hh, Hh', Hd, Hd'. simpl.
    split; [done|].
    assert (Hm : multirow implementations' heading = multirow implementations heading).
    { unfold multirow. by rewrite <- (Permutation_length Hp). }
    assert (Hmap : map (render_row eng cfg d') d' = map (render_row eng cfg d) d').
    { apply map_ext. intros r. symmetry. apply Hrow. }
    by rewrite Hm, Hmap.
Qed.

(** X13, witness *)
Lemma row_text_independent_of_order_witness :
  exists d',
    section_rows supercop_config (matrix_of supercop_config dir_tie) [ amd64_64; sandy2x ]
      = Ok d' /\
    rows_of supercop_config dir_tie [ sandy2x; amd64_64 ] ≡ₚ d' /\
    map iname d' = present (matrix_of supercop_config dir_tie) [ amd64_64; sandy2x ] /\
    (forall r,
       render_row sqrt_engine supercop_config
         (rows_of supercop_config dir_tie [ sandy2x; amd64_64 ]) r =
       render_row sqrt_engine supercop_config d' r) /\
    (forall heading,
       heading_of supercop_config [ sandy2x; amd64_64 ] = Ok heading ->
       heading_of supercop_config [ amd64_64; sandy2x ] = Ok heading ->
       render_section sqrt_engine supercop_config (matrix_of supercop_config dir_tie)
           [ sandy2x; amd64_64 ] =
         Ok (Str.join Str.nl
               ("\midrule" :: multirow [ sandy2x; amd64_64 ] heading ::
                map (render_row sqrt_engine supercop_config
                       (rows_of supercop_config dir_tie [ sandy2x; amd64_64 ]))
                    (rows_of supercop_config dir_tie [ sandy2x; amd64_64 ]))) /\
       render_section sqrt_engine supercop_config (matrix_of supercop_config dir_tie)
           [ amd64_64; sandy2x ] =
         Ok (Str.join Str.nl
               ("\midrule" :: multirow [ sandy2x; amd64_64 ] heading ::
                map (render_row sqrt_engine supercop_config
                       (rows_of supercop_config dir_tie [ sandy2x; amd64_64 ]))
                    d'))).
Proof.
  apply (row_text_independent_of_order sqrt_engine supercop_config
           (matrix_of supercop_config dir_tie) [ sandy2x; amd64_64 ] [ amd64_64; sandy2x ]).
  - vm_compute. reflexivity.
  - vm_compute. reflexivity.
  - apply perm_swap.
  - apply section_rows_rows_of; vm_compute; reflexivity.
Defined.

(** ** When rendering fails *)

Lemma well_configuredb_true cfg : well_configuredb cfg = true -> well_configured cfg.
Proof.
  unfold well_configuredb, well_configured.
  intros [H1 H2]%andb_true_iff. rewrite forallb_forall in H1, H2. split.
  - intros h Hh%list_elem_of_In. apply H1 in Hh. by apply bool_decide_eq_true in Hh.
  - intros s Hs%list_elem_of_In. apply H2 in Hs as [Hh Hs]%andb_true_iff. split.
    + destruct (heading_of cfg s); [eauto|discriminate].
    + rewrite forallb_forall in Hs.
      intros ii Hii%list_elem_of_In. apply Hs in Hii. by apply bool_decide_eq_true in Hii.
Qed.

Lemma mapR_Ok_elem {A B} (f : A -> result B) l bs a :
  mapR f l = Ok bs -> a ∈ l -> exists b, f a = Ok b.
Proof.
  intros H%mapR_Ok Ha. induction H as [|x b l bs Hx _ IH]; [by apply elem_of_nil in Ha|].
  apply elem_of_cons in Ha as [->|Ha]; eauto.
Qed.

Lemma mapR_first_Throw {A B} (f : A -> result B) l1 a l2 e :
  (forall x, x ∈ l1 -> exists b, f x = Ok b) -> f a = Throw e ->
  mapR f (l1 ++ a :: l2) = Throw e.
Proof.
  intros Hl1 Ha. induction l1 as [|x l1 IH]; simpl.
  - by rewrite Ha.
  - destruct (Hl1 x) as [b ->]; [by left|]. simpl.
    rewrite IH; [done|]. intros; apply Hl1; by right.
Qed.


Lemma table_head_Ok cfg :
  (exists h, table_head cfg = Ok h) <->
  forall h, h ∈ machineOrder cfg -> is_Some (machinenameMap cfg !! h).
Proof.
  unfold table_head. split.
  - intros [t Ht] h Hh.
    destruct (mapR _ (machineOrder cfg)) as [names|] eqn:Hn; simpl in Ht; [|discriminate].
    destruct (mapR_Ok_elem _ _ _ _ Hn Hh) as [b Hb].
    by destruct (machinenameMap cfg !! h).
  - intros Hall.
    destruct (mapR_total (fun m => match machinenameMap cfg !! m with
                                   | Some n => Ok (Str.padStart PAD_CYC n)
                                   | None => Throw (TypeError "machinenameMap[m] is undefined")
                                   end) (machineOrder cfg)) as [names ->]; [|simpl; eauto].
    intros h [n Hn]%Hall. rewrite Hn. eauto.
Qed.

Lemma render_section_Ok eng cfg data implementations :
  (exists b, render_section eng cfg data implementations = Ok b) <->
  (exists heading, heading_of cfg implementations = Ok heading) /\
  (forall ii, ii ∈ implementations -> is_Some (implMap cfg !! ii)).
Proof.
  unfold render_section. split.
  - intros [b Hb].
    destruct (heading_of cfg implementations) as [heading|]; simpl in Hb; [|discriminate].
    destruct (section_rows cfg data implementations) as [d|] eqn:Hd; simpl in Hb; [|discriminate].
    split; [eauto|]. by apply section_rows_spec in Hd as (_ & ? & _).
  - intros [[heading ->] Hall]. simpl.
    destruct (section_rows_total cfg data implementations Hall) as [d ->]. simpl. eauto.
Qed.

Lemma genBarTable_total eng cfg data :
  well_configured cfg -> exists table, genBarTable eng cfg data = Ok table.
Proof.
  unfold genBarTable, well_configured.
  intros [[head ->]%table_head_Ok Hsec]. simpl.
  destruct (mapR_total (render_section eng cfg data) (implOrder cfg)) as [blocks ->];
    [|simpl; eauto].
  intros s Hs. by apply render_section_Ok, Hsec.
Qed.

Lemma supercop_well_configured : well_configured supercop_config.
Proof. apply well_configuredb_true. vm_compute. reflexivity. Qed.

(** X14.  With plain tables, whether [genBarTable] returns a table or
    throws is decided by the tables alone, never by the data: it returns
    a table exactly when every host of the host ordering has a display
    name, every Section's first identifier leads to a heading in
    [CAPTION_MAP], and every identifier of every Section is in
    [implMap].  No matrix, not even an empty one or one with missing
    hosts, makes a well-configured renderer fail. *)
Theorem rendering_outcome_independent_of_data eng cfg data :
  plain_tables cfg = true ->
  (exists table, genBarTable eng cfg data = Ok table) <-> well_configured cfg.
Proof.
  intros _. split; [|apply genBarTable_total].
  unfold genBarTable, well_configured. intros [table Ht].
  destruct (table_head cfg) as [head|] eqn:Hh; simpl in Ht; [|discriminate].
  destruct (mapR (render_section eng cfg data) (implOrder cfg)) as [blocks|] eqn:Hb;
    simpl in Ht; [|discriminate].
  split; [apply table_head_Ok; eauto|].
  intros s Hs. apply (render_section_Ok eng cfg data). by eapply mapR_Ok_elem.
Qed.

(** X14, witness *)
Lemma rendering_outcome_independent_of_data_witness :
  (exists table, genBarTable sqrt_engine supercop_config ∅ = Ok table) <->
  well_configured supercop_config.
Proof.
  apply (rendering_outcome_independent_of_data sqrt_engine supercop_config ∅).
  vm_compute. reflexivity.
Defined.

(** X15.  With the tables the source ships, the run ends without an
    exception whenever every listed directory of an allow-listed host
    has a readable [data] file and the records parsed from these files
    have plain keys, and it prints exactly three texts: the preamble,
    the table and the footer.  The two Sections of [implOrder] name no
    identifier that [implMap] lacks, and every heading and host name is
    present. *)
Theorem shipped_tables_always_render eng dir :
  plain_records supercop_config dir = true ->
  (forall name file, (name, file) ∈ dir -> name ∈ machineOrder supercop_config ->
     is_Some file) ->
  exists table,
    main eng supercop_config (Some dir) =
    ([ table_start CAPTION LABEL; table; TABLE_END ], None).
Proof.
  intros _ Hall. unfold main.
  destruct (foldR_add_host_Ok (List.filter (allowed supercop_config) dir) ∅) as [m Hm].
  { apply Forall_forall. intros [name file] [Hin Hal]%elem_of_List_filter.
    apply (Hall name file Hin). unfold allowed in Hal. by apply bool_decide_eq_true in Hal. }
  unfold data at 1. rewrite Hm.
  destruct (genBarTable_total eng supercop_config m supercop_well_configured) as [table ->].
  by exists table.
Qed.

(** X15, witness *)
Lemma shipped_tables_always_render_witness :
  exists table,
    main sqrt_engine supercop_config (Some dir_two_hosts) =
    ([ table_start CAPTION LABEL; table; TABLE_END ], None).
Proof.
  apply (shipped_tables_always_render sqrt_engine dir_two_hosts).
  - vm_compute. reflexivity.
  - intros name file Hin _. unfold dir_two_hosts in Hin.
    apply elem_of_cons in Hin as [[= -> ->]|Hin]; [by eexists|].
    apply list_elem_of_singleton in Hin as [= -> ->]. by eexists.
Defined.

(** X16.  With plain tables, the exception of a badly configured
    Section names the first offending identifier: when the Sections
    before it render, its heading is found, and the identifiers before
    [ii] in its list are known, the run of [genBarTable] ends with the
    Error "[ii] not in impl", whatever the data holds and whatever comes
    after [ii]. *)
Theorem first_unknown_implementation_is_reported eng cfg data secs pre ii post rest :
  plain_tables cfg = true ->
  implOrder cfg = secs ++ (pre ++ ii :: post) :: rest ->
  (forall h, h ∈ machineOrder cfg -> is_Some (machinenameMap cfg !! h)) ->
  (forall s, s ∈ secs -> exists b, render_section eng cfg data s = Ok b) ->
  (exists heading, heading_of cfg (pre ++ ii :: post) = Ok heading) ->
  (forall i, i ∈ pre -> is_Some (implMap cfg !! i)) ->
  implMap cfg !! ii = None ->
  genBarTable eng cfg data = Throw (Error (ii +:+ " not in impl")).
Proof.
  intros _ Horder [head Hhead]%table_head_Ok Hsecs [heading Hheading] Hpre Hii.
  unfold genBarTable. rewrite Hhead, Horder. simpl.
  rewrite (mapR_first_Throw _ _ _ _ (Error (ii +:+ " not in impl"))); [done|done|].
  unfold render_section. rewrite Hheading. simpl.
  unfold section_rows.
  rewrite (mapR_first_Throw _ _ _ _ (Error (ii +:+ " not in impl"))); [done| |].
  - intros i [info Hi]%Hpre. unfold lookup_impl. rewrite Hi. eauto.
  - unfold lookup_impl. by rewrite Hii.
Qed.

(** X16, witness: the second Section names two unknown identifiers
    behind a known one; the first of them is reported. *)
Lemma first_unknown_implementation_is_reported_witness :
  genBarTable sqrt_engine config_two_unknown (matrix_of supercop_config dir_two_hosts) =
    Throw (Error (ref10 +:+ " not in impl")).
Proof.
  apply (first_unknown_implementation_is_reported sqrt_engine config_two_unknown
           (matrix_of supercop_config dir_two_hosts)
           [ [ sandy2x; amd64_64 ] ] [ sandy2x ] ref10
           [ "crypto_scalarmult/curve25519/donna" ] []).
  - vm_compute. reflexivity.
  - reflexivity.
  - intros h Hh. finite_mem Hh; vm_compute; eauto.
  - intros s Hs. apply list_elem_of_singleton in Hs as ->.
    apply render_section_Ok. split; [vm_compute; eauto|].
    intros ii Hii. finite_mem Hii; vm_compute; eauto.
  - vm_compute. eauto.
  - intros i Hi. apply list_elem_of_singleton in Hi as ->. vm_compute. eauto.
  - vm_compute. reflexivity.
Defined.

(** ** Cells *)

Lemma min_step_is_count lowest x :
  is_count lowest = true -> is_count x = true -> is_count (min_step lowest x) = true.
Proof.
  intros Hl Hx. unfold min_step.
  destruct x as [[]|[]| |[]], lowest as [[]|[]| |[]]; try discriminate; simpl;
    try reflexivity; by destruct (Num.ltb _ _).
Qed.

Lemma min_step_zero lowest x :
  is_count lowest = true -> is_count x = true ->
  is_zero lowest || is_zero x = true -> is_zero (min_step lowest x) = true.
Proof.
  intros Hl Hx. unfold min_step.
  by destruct x as [[]|[]| |[]], lowest as [[]|[]| |[]].
Qed.

Lemma Math_min_from_zero l : forall lowest,
  is_count lowest = true -> forallb is_count l = true ->
  is_zero lowest || existsb is_zero l = true ->
  Math_min_from lowest l = S754_zero false.
Proof.
  induction l as [|x l IH]; intros lowest Hl Hall Hz; simpl in Hall, Hz.
  - rewrite orb_false_r in Hz. by destruct lowest as [[]|[]| |[]].
  - apply andb_true_iff in Hall as [Hx Hall].
    rewrite Math_min_from_cons by (by apply is_count_not_nan).
    apply IH; [by apply min_step_is_count|done|].
    destruct (existsb is_zero l); [by rewrite orb_true_r|].
    rewrite orb_false_r in *. by apply min_step_zero.
Qed.

(** X17.  A recorded count of zero cycles is not guarded against: in a
    host column whose values are all cycle counts and one of which is
    0, the column minimum is 0, so the cell of the zero record is the
    emphasized "0k" with the ratio "NaNx" (0/0), and the cell of every
    other row carries the ratio "Infinityx" and is not emphasized. *)
Theorem zero_minimum_gives_infinite_ratios eng cfg d machine r :
  machine ∈ machineOrder cfg ->
  forallb is_count (column d machine) = true ->
  existsb is_zero (column d machine) = true ->
  r ∈ d ->
  printCycles eng (num_at (byMachine r) machine)
                  (num_at (smallestImplByMachine cfg d) machine) =
    if is_zero (num_at (byMachine r) machine)
    then "\textbf{0k {\tiny (NaNx)}}"
    else Str.padStart PAD_CYC
           (toFixed eng 0 (Num.div (num_at (byMachine r) machine) (of_Z FACTOR))
            +:+ "k {\tiny (Infinityx)}").
Proof.
  intros Hm Hall Hz Hr.
  rewrite smallestImplByMachine_lookup by done.
  unfold Math_min. rewrite Math_min_from_zero; [|done|done|by rewrite Hz].
  assert (Hc : is_count (num_at (byMachine r) machine) = true).
  { rewrite forallb_forall in Hall. apply Hall, list_elem_of_In, column_elem. eauto. }
  unfold printCycles.
  destruct (num_at (byMachine r) machine) as [[]|[]| |[] m e]; try discriminate; simpl;
    try reflexivity; by rewrite sapp_assoc.
Qed.

(** X17, witness *)
Lemma zero_minimum_gives_infinite_ratios_witness :
  printCycles sqrt_engine (Number "1000")
              (num_at (smallestImplByMachine supercop_config zero_rows) "kivsa") =
    Str.padStart PAD_CYC "1k {\tiny (Infinityx)}".
Proof.
  assert (H := zero_minimum_gives_infinite_ratios sqrt_engine supercop_config
                 zero_rows "kivsa" row_1000).
  assert (H1 : "kivsa" ∈ machineOrder supercop_config) by (by left).
  assert (H2 : forallb is_count (column zero_rows "kivsa") = true)
    by (vm_compute; reflexivity).
  assert (H3 : existsb is_zero (column zero_rows "kivsa") = true)
    by (vm_compute; reflexivity).
  assert (H4 : row_1000 ∈ zero_rows) by (right; left).
  specialize (H H1 H2 H3 H4). vm_compute in H. vm_compute. exact H.
Defined.

Lemma slength_padStart n s : (n <= String.length (Str.padStart n s))%nat.
Proof.
  unfold Str.padStart. rewrite slength_app.
  assert (H : forall k, String.length (Str.repeat_char Str.space k) = k).
  { induction k; simpl; congruence. }
  rewrite H. lia.
Qed.

Lemma padStart_long n s : (n <= String.length s)%nat -> Str.padStart n s = s.
Proof.
  intros H. unfold Str.padStart.
  by replace (n - String.length s)%nat with 0%nat by lia.
Qed.

(** X18.  An emphasized cell is never padded: its text, "\textbf{"
    around the scaled value and the ratio, is always longer than the
    cell width [PAD_CYC], so [padStart] returns it unchanged and the
    printed cell is wider than the plain cells of its column. *)
Theorem emphasized_cell_is_never_padded eng c small :
  Num.eqb c small = true ->
  printCycles eng c small = "\textbf{" +:+ cell_text eng c small +:+ "}" /\
  (PAD_CYC < String.length (printCycles eng c small))%nat.
Proof.
  intros He. rewrite printCycles_unfold, He.
  assert (Hlen : (PAD_CYC < String.length ("\textbf{" +:+ cell_text eng c small +:+ "}"))%nat).
  { unfold cell_text. rewrite !slength_app. unfold PAD_CYC. simpl. lia. }
  rewrite padStart_long by lia. done.
Qed.

(** X18, witness *)
Lemma emphasized_cell_is_never_padded_witness :
  printCycles sqrt_engine (of_Z 1000) (of_Z 1000) =
    "\textbf{" +:+ cell_text sqrt_engine (of_Z 1000) (of_Z 1000) +:+ "}" /\
  (PAD_CYC < String.length (printCycles sqrt_engine (of_Z 1000) (of_Z 1000)))%nat.
Proof.
  apply (emphasized_cell_is_never_padded sqrt_engine (of_Z 1000) (of_Z 1000)).
  vm_compute. reflexivity.
Defined.

(** ** The ratio of an emphasized cell *)

Lemma SFdiv_core_binary_self m e :
  SFdiv_core_binary prec emax (Z.pos m) e (Z.pos m) e = (2 ^ 53, -53, loc_Exact).
Proof.
  unfold SFdiv_core_binary. cbv zeta.
  replace (Zdigits2 (Z.pos m) + e - (Zdigits2 (Z.pos m) + e)) with 0 by lia.
  replace (e - e) with 0 by lia.
  change (0 - fexp prec emax 0 `min` 0) with 53.
  change (fexp prec emax 0 `min` 0) with (-53).
  cbv iota. rewrite Z.shiftl_mul_pow2 by lia.
  pose proof (Z.div_mul (2 ^ 53) (Z.pos m)) as Hq.
  pose proof (Z.mod_mul (2 ^ 53) (Z.pos m)) as Hr.
  rewrite (Z.mul_comm (Z.pos m)).
  unfold Z.div, Z.modulo in Hq, Hr.
  destruct (Z.div_eucl (2 ^ 53 * Z.pos m) (Z.pos m)) as [q r].
  rewrite Hq, Hr by lia.
  unfold new_location, new_location_even, new_location_odd.
  by destruct (Z.even _).
Qed.

Lemma div_self s m e :
  Num.div (S754_finite s m e) (S754_finite s m e) = of_Z 1.
Proof.
  unfold Num.div, SFdiv. rewrite SFdiv_core_binary_self.
  by destruct s.
Qed.

Lemma num_eqb_finite s m e y :
  Num.eqb (S754_finite s m e) y = true -> y = S754_finite s m e.
Proof.
  intros H. pose proof (num_eqb_not_nan _ _ H) as [_ Hy].
  apply num_eqb_key in H; [|done..]. unfold eq3 in H.
  destruct s, y as [[]|[]| |[] my ey]; simpl in *; try discriminate; try lia;
    (assert (my = m) by lia; assert (ey = e) by lia; by subst).
Qed.

(** X20.  The ratio of an emphasized cell is fixed by the value alone:
    a finite value other than zero divided by the equal minimum is
    exactly 1, printed "1.00x"; a value of zero or Infinity gives 0/0 or
    Infinity/Infinity, printed "NaNx".  So the fastest implementation of
    a column always reads "\textbf{<value>k {\tiny (1.00x)}}" unless its
    count is zero or overflows. *)
Theorem emphasized_ratio_is_one eng c small :
  Num.eqb c small = true ->
  printCycles eng c small =
    "\textbf{" +:+ toFixed eng 0 (Num.div c (of_Z FACTOR)) +:+ "k {\tiny (" +:+
    match c with S754_finite _ _ _ => "1.00" | _ => "NaN" end +:+ "x)}}".
Proof.
  intros He. rewrite printCycles_unfold, He.
  assert (Hlen : (PAD_CYC <= String.length ("\textbf{" +:+ cell_text eng c small +:+ "}"))%nat).
  { unfold cell_text. rewrite !slength_app. unfold PAD_CYC. simpl. lia. }
  rewrite padStart_long by done. unfold cell_text.
  assert (Hr : toFixed eng 2 (Num.div c small) =
               match c with S754_finite _ _ _ => "1.00" | _ => "NaN" end).
  { destruct c as [sc|sc| |sc m e].
    - by destruct small as [[]|[]| |[]], sc.
    - by destruct small as [[]|[]| |[]], sc.
    - done.
    - rewrite (num_eqb_finite _ _ _ _ He), div_self. reflexivity. }
  rewrite Hr. by rewrite !sapp_assoc.
Qed.

(** X20, witness *)
Lemma emphasized_ratio_is_one_witness :
  printCycles sqrt_engine (Number "5000") (Number "5000") = "\textbf{5k {\tiny (1.00x)}}".
Proof.
  assert (H := emphasized_ratio_is_one sqrt_engine (Number "5000") (Number "5000")).
  assert (H1 : Num.eqb (Number "5000") (Number "5000") = true) by (vm_compute; reflexivity).
  specialize (H H1). vm_compute in H. vm_compute. exact H.
Defined.

(** ** The columns of the table *)




(** * The summary value *)








